(** * t8code: coarse mesh (t8_cmesh.c) and ghost layer (t8_forest_ghost.cxx)

    A shallow embedding of the two translation units and the properties
    their specification states about them.

    Conventions.
    - C integers are mathematical integers [Z].  Where a [t8_gloidx_t]
      (64 bits, signed) can not hold the mathematical result of a shift or
      a product the behaviour of the C program is undefined; the embedding
      returns [Err UndefinedBehavior] there.  In the ghost layer a
      [t8_gloidx_t] assigned to a [t8_locidx_t] goes through the conversion
      [t8_locidx_of]; sums and differences of tree ids are exact.
    - [T8_ASSERT] is modelled as compiled in (debug build): a failing
      assertion is [Err ContractViolation].  [SC_ABORT] is an error of the
      kind the message describes.
    - Heap objects are values; a pointer that may be [NULL] is an [option]. *)

From Stdlib Require Import ZArith Lia.
From stdpp Require Import base tactics option list sorting gmap.

Local Open Scope Z_scope.

(** ** Results of fallible operations *)

Inductive t8_error : Type :=
  | ContractViolation
  | ConfigurationError
  | Unsupported
  | UndefinedBehavior.

Inductive res (A : Type) : Type :=
  | Ok (a : A)
  | Err (e : t8_error).

Arguments Ok {A} a.
Arguments Err {A} e.


#[global] Instance res_bind : MBind res := fun A B f m =>
  match m with
  | Ok a => f a
  | Err e => Err e
  end.

Definition T8_ASSERT (b : bool) : res unit :=
  if b then Ok tt else Err ContractViolation.

(** Monadic left fold: the body of a C [for] loop run over the list of its
    iterations, stopping at the first error. *)
Fixpoint foldM {S A : Type} (f : S -> A -> res S) (l : list A) (s : S) : res S :=
  match l with
  | [] => Ok s
  | a :: l' => s' ← f s a; foldM f l' s'
  end.

(** A C [int] used as a truth value. *)
Definition truthy (z : Z) : bool := negb (z =? 0).

(** ** Element classes *)

Inductive t8_eclass_t : Type :=
  | T8_ECLASS_VERTEX
  | T8_ECLASS_LINE
  | T8_ECLASS_QUAD
  | T8_ECLASS_TRIANGLE
  | T8_ECLASS_HEX
  | T8_ECLASS_TET
  | T8_ECLASS_PRISM
  | T8_ECLASS_PYRAMID.

#[global] Instance t8_eclass_eq_dec : EqDecision t8_eclass_t.
Proof. solve_decision. Defined.

(** Modelled from the spec: the table [t8_eclass_to_dimension] of the EClass
    registry (t8_eclass.c is not among the sources); every class has a fixed
    dimension in 0..3. *)
Definition t8_eclass_to_dimension (c : t8_eclass_t) : Z :=
  match c with
  | T8_ECLASS_VERTEX => 0
  | T8_ECLASS_LINE => 1
  | T8_ECLASS_QUAD | T8_ECLASS_TRIANGLE => 2
  | T8_ECLASS_HEX | T8_ECLASS_TET | T8_ECLASS_PRISM | T8_ECLASS_PYRAMID => 3
  end.

(** Modelled from the spec: the table [t8_eclass_num_faces] of the EClass
    registry (t8_eclass.c is not among the sources); every class has a fixed
    face count in 0..6. *)
Definition t8_eclass_num_faces (c : t8_eclass_t) : Z :=
  match c with
  | T8_ECLASS_VERTEX => 0
  | T8_ECLASS_LINE => 2
  | T8_ECLASS_QUAD => 4
  | T8_ECLASS_TRIANGLE => 3
  | T8_ECLASS_HEX => 6
  | T8_ECLASS_TET => 4
  | T8_ECLASS_PRISM => 5
  | T8_ECLASS_PYRAMID => 5
  end.

(** ** Integer types *)

(** Modelled from the spec: [t8_gloidx_t] (declared in t8.h, not among the
    sources) is the signed 64-bit type whose overflow the uniform-bounds
    section of the spec speaks of. *)
Definition T8_GLOIDX_MAX : Z := 2 ^ 63 - 1.

Definition gloidx_fits (z : Z) : bool :=
  (- 2 ^ 63 <=? z) && (z <=? T8_GLOIDX_MAX).

(** The value of a signed 64-bit expression whose mathematical value is [z]. *)
Definition gloidx (z : Z) : res Z :=
  if gloidx_fits z then Ok z else Err UndefinedBehavior.

(** [a << s] at type [t8_gloidx_t]: defined for a shift count in 0..63 and a
    representable result. *)
Definition gloidx_shl (a s : Z) : res Z :=
  if (0 <=? s) && (s <? 64) then gloidx (Z.shiftl a s) else Err UndefinedBehavior.

Definition gloidx_mul (a b : Z) : res Z := gloidx (a * b).

(** ** Communicators *)

Inductive sc_MPI_Comm : Type :=
  | sc_MPI_COMM_NULL
  | sc_MPI_COMM_WORLD
  | sc_MPI_Comm_handle (id : nat).

#[global] Instance sc_MPI_Comm_eq_dec : EqDecision sc_MPI_Comm.
Proof. solve_decision. Defined.

(** What the MPI library answers about a communicator. *)
Record mpi_env : Type := {
  sc_MPI_Comm_dup : sc_MPI_Comm -> sc_MPI_Comm;
  sc_MPI_Comm_size : sc_MPI_Comm -> Z;
  sc_MPI_Comm_rank : sc_MPI_Comm -> Z;
}.

(** ** Reference counts *)

(** Modelled from the spec: [t8_refcount_init], [t8_refcount_ref] and
    [t8_refcount_unref] (t8_refcount.h is not among the sources).  A count
    starts at 1; [ref] increments; [unref] decrements and reports whether
    the count reached zero.  Both require a live (positive) count. *)
Record t8_refcount_t : Type := { refcount : Z }.

Definition t8_refcount_init : t8_refcount_t := {| refcount := 1 |}.

Definition t8_refcount_ref (rc : t8_refcount_t) : res t8_refcount_t :=
  T8_ASSERT (0 <? refcount rc);;
  Ok {| refcount := refcount rc + 1 |}.

Definition t8_refcount_unref (rc : t8_refcount_t) : res (t8_refcount_t * bool) :=
  T8_ASSERT (0 <? refcount rc);;
  Ok ({| refcount := refcount rc - 1 |}, refcount rc - 1 =? 0).

(** ** The coarse mesh (t8_cmesh.c) *)

Module Cmesh.

Record t8_ctree_fneighbor : Type := {
  fn_treeid : Z;
  fn_eclass : option t8_eclass_t;   (* [None] is [T8_ECLASS_LAST] *)
  fn_tree_to_face : Z;
}.

Record t8_ctree : Type := {
  treeid : Z;
  eclass : t8_eclass_t;
  face_neighbors : list t8_ctree_fneighbor;
}.

Record t8_cmesh : Type := {
  committed : Z;
  dimension : Z;
  do_dup : Z;
  set_partitioned : Z;
  mpicomm : sc_MPI_Comm;
  mpirank : Z;
  mpisize : Z;
  rc : t8_refcount_t;
  num_trees : Z;
  num_local_trees : Z;
  num_ghosts : Z;
  num_trees_per_eclass : t8_eclass_t -> Z;
  (* [None]: NULL; a slot of the array is [None] until [set_tree] fills it *)
  ctrees : option (list (option t8_ctree));
  first_tree : Z;
  tree_offsets : option (list Z);
}.

Definition t8_cmesh_init : t8_cmesh := {|
  committed := 0;
  dimension := -1;
  do_dup := 0;
  set_partitioned := 0;
  mpicomm := sc_MPI_COMM_WORLD;
  mpirank := -1;
  mpisize := -1;
  rc := t8_refcount_init;
  num_trees := 0;
  num_local_trees := 0;
  num_ghosts := 0;
  num_trees_per_eclass := fun _ => 0;
  ctrees := None;
  first_tree := 0;
  tree_offsets := None;
|}.

Definition t8_cmesh_set_mpicomm (cmesh : t8_cmesh) (comm : sc_MPI_Comm) (dup : Z)
  : res t8_cmesh :=
  T8_ASSERT (0 <? refcount (rc cmesh));;
  T8_ASSERT (negb (truthy (committed cmesh)));;
  T8_ASSERT (bool_decide (mpicomm cmesh = sc_MPI_COMM_WORLD));;
  T8_ASSERT (bool_decide (comm ≠ sc_MPI_COMM_NULL));;
  Ok {| committed := committed cmesh; dimension := dimension cmesh;
        do_dup := dup; set_partitioned := set_partitioned cmesh;
        mpicomm := comm; mpirank := mpirank cmesh; mpisize := mpisize cmesh;
        rc := rc cmesh; num_trees := num_trees cmesh;
        num_local_trees := num_local_trees cmesh; num_ghosts := num_ghosts cmesh;
        num_trees_per_eclass := num_trees_per_eclass cmesh;
        ctrees := ctrees cmesh; first_tree := first_tree cmesh;
        tree_offsets := tree_offsets cmesh |}.

Definition t8_cmesh_get_mpicomm (cmesh : t8_cmesh) : res (sc_MPI_Comm * Z) :=
  T8_ASSERT (0 <? refcount (rc cmesh));;
  T8_ASSERT (bool_decide (mpicomm cmesh ≠ sc_MPI_COMM_NULL));;
  Ok (mpicomm cmesh, do_dup cmesh).

(** [sc_array_new_size]: an array of [n] slots, none of them written yet. *)
Definition sc_array_new_size {A : Type} (n : Z) : list (option A) :=
  replicate (Z.to_nat n) None.

Definition t8_cmesh_set_num_trees (cmesh : t8_cmesh) (n : Z) : res t8_cmesh :=
  T8_ASSERT (negb (truthy (committed cmesh)));;
  if truthy (set_partitioned cmesh) then
    T8_ASSERT (0 <? num_trees cmesh);;
    T8_ASSERT (num_local_trees cmesh =? 0);;
    Ok {| committed := committed cmesh; dimension := dimension cmesh;
          do_dup := do_dup cmesh; set_partitioned := set_partitioned cmesh;
          mpicomm := mpicomm cmesh; mpirank := mpirank cmesh;
          mpisize := mpisize cmesh; rc := rc cmesh;
          num_trees := num_trees cmesh;
          num_local_trees := n; num_ghosts := num_ghosts cmesh;
          num_trees_per_eclass := num_trees_per_eclass cmesh;
          ctrees := Some (sc_array_new_size n); first_tree := first_tree cmesh;
          tree_offsets := tree_offsets cmesh |}
  else
    T8_ASSERT (0 <? n);;
    T8_ASSERT (num_trees cmesh =? 0);;
    Ok {| committed := committed cmesh; dimension := dimension cmesh;
          do_dup := do_dup cmesh; set_partitioned := set_partitioned cmesh;
          mpicomm := mpicomm cmesh; mpirank := mpirank cmesh;
          mpisize := mpisize cmesh; rc := rc cmesh;
          num_trees := n;
          num_local_trees := n; num_ghosts := num_ghosts cmesh;
          num_trees_per_eclass := num_trees_per_eclass cmesh;
          ctrees := Some (sc_array_new_size n); first_tree := first_tree cmesh;
          tree_offsets := tree_offsets cmesh |}.

Definition t8_cmesh_set_partitioned (cmesh : t8_cmesh)
    (partitioned num_global_trees first_local_tree ghosts : Z) : res t8_cmesh :=
  T8_ASSERT (negb (truthy (committed cmesh)));;
  T8_ASSERT (set_partitioned cmesh =? 0);;
  T8_ASSERT (num_trees cmesh =? 0);;
  T8_ASSERT (num_local_trees cmesh =? 0);;
  T8_ASSERT (first_tree cmesh =? 0);;
  if partitioned =? 0 then
    t8_cmesh_set_num_trees
      {| committed := committed cmesh; dimension := dimension cmesh;
         do_dup := do_dup cmesh; set_partitioned := partitioned;
         mpicomm := mpicomm cmesh; mpirank := mpirank cmesh;
         mpisize := mpisize cmesh; rc := rc cmesh;
         num_trees := num_trees cmesh;
         num_local_trees := num_local_trees cmesh;
         num_ghosts := num_ghosts cmesh;
         num_trees_per_eclass := num_trees_per_eclass cmesh;
         ctrees := ctrees cmesh; first_tree := first_tree cmesh;
         tree_offsets := tree_offsets cmesh |}
      num_global_trees
  else
    Ok {| committed := committed cmesh; dimension := dimension cmesh;
          do_dup := do_dup cmesh; set_partitioned := partitioned;
          mpicomm := mpicomm cmesh; mpirank := mpirank cmesh;
          mpisize := mpisize cmesh; rc := rc cmesh;
          num_trees := num_global_trees;
          num_local_trees := num_local_trees cmesh;
          num_ghosts := ghosts;
          num_trees_per_eclass := num_trees_per_eclass cmesh;
          ctrees := ctrees cmesh; first_tree := first_local_tree;
          tree_offsets := tree_offsets cmesh |}.

Definition t8_cmesh_tree_id_is_valid (cmesh : t8_cmesh) (tree_id : Z) : bool :=
  if truthy (set_partitioned cmesh) then
    (first_tree cmesh <? tree_id)
    && (tree_id <? first_tree cmesh + num_local_trees cmesh)
  else
    (0 <=? tree_id) && (tree_id <? num_trees cmesh).

Definition t8_cmesh_tree_index (cmesh : t8_cmesh) (tree_id : Z) : Z :=
  if truthy (set_partitioned cmesh) then tree_id - first_tree cmesh else tree_id.

(** [t8_sc_array_index_topidx]: the slot at [index]; the array must exist and
    the index must lie inside it. *)
Definition t8_sc_array_index_topidx {A : Type}
    (array : option (list A)) (index : Z) : res A :=
  match array with
  | None => Err UndefinedBehavior
  | Some a =>
      T8_ASSERT ((0 <=? index) && (index <? Z.of_nat (length a)));;
      match a !! Z.to_nat index with
      | Some x => Ok x
      | None => Err UndefinedBehavior
      end
  end.

Definition invalid_fneighbor : t8_ctree_fneighbor :=
  {| fn_treeid := -1; fn_eclass := None; fn_tree_to_face := -1 |}.

Definition eclass_count_incr (tab : t8_eclass_t -> Z) (c : t8_eclass_t)
  : t8_eclass_t -> Z :=
  fun c' => if decide (c' = c) then tab c' + 1 else tab c'.

Definition t8_cmesh_set_tree (cmesh : t8_cmesh) (tree_id : Z)
    (tree_class : t8_eclass_t) : res t8_cmesh :=
  T8_ASSERT (negb (truthy (committed cmesh)));;
  T8_ASSERT (t8_cmesh_tree_id_is_valid cmesh tree_id);;
  dim ← (if dimension cmesh =? -1 then Ok (t8_eclass_to_dimension tree_class)
         else T8_ASSERT (t8_eclass_to_dimension tree_class =? dimension cmesh);;
              Ok (dimension cmesh));
  let index := t8_cmesh_tree_index cmesh tree_id in
  _ ← t8_sc_array_index_topidx (ctrees cmesh) index;
  let tree := {| treeid := tree_id; eclass := tree_class;
                 face_neighbors :=
                   replicate (Z.to_nat (t8_eclass_num_faces tree_class))
                             invalid_fneighbor |} in
  Ok {| committed := committed cmesh; dimension := dim;
        do_dup := do_dup cmesh; set_partitioned := set_partitioned cmesh;
        mpicomm := mpicomm cmesh; mpirank := mpirank cmesh;
        mpisize := mpisize cmesh; rc := rc cmesh;
        num_trees := num_trees cmesh;
        num_local_trees := num_local_trees cmesh;
        num_ghosts := num_ghosts cmesh;
        num_trees_per_eclass :=
          eclass_count_incr (num_trees_per_eclass cmesh) tree_class;
        ctrees := (fun a => <[Z.to_nat index := Some tree]> a) <$> ctrees cmesh;
        first_tree := first_tree cmesh;
        tree_offsets := tree_offsets cmesh |}.

Definition t8_cmesh_join_faces (cmesh : t8_cmesh) (tree1 tree2 face1 face2
    orientation : Z) : res t8_cmesh :=
  Err Unsupported.

Definition t8_cmesh_commit (mpi : mpi_env) (cmesh : t8_cmesh) : res t8_cmesh :=
  T8_ASSERT (bool_decide (mpicomm cmesh ≠ sc_MPI_COMM_NULL));;
  T8_ASSERT (negb (truthy (committed cmesh)));;
  T8_ASSERT (0 <? num_trees cmesh);;
  let comm := if truthy (do_dup cmesh) then sc_MPI_Comm_dup mpi (mpicomm cmesh)
              else mpicomm cmesh in
  Ok {| committed := 1; dimension := dimension cmesh;
        do_dup := do_dup cmesh; set_partitioned := set_partitioned cmesh;
        mpicomm := comm;
        mpirank := sc_MPI_Comm_rank mpi comm;
        mpisize := sc_MPI_Comm_size mpi comm;
        rc := rc cmesh; num_trees := num_trees cmesh;
        num_local_trees := num_local_trees cmesh;
        num_ghosts := num_ghosts cmesh;
        num_trees_per_eclass := num_trees_per_eclass cmesh;
        ctrees := ctrees cmesh; first_tree := first_tree cmesh;
        tree_offsets := tree_offsets cmesh |}.

Definition t8_cmesh_get_num_trees (cmesh : t8_cmesh) : res Z :=
  T8_ASSERT (truthy (committed cmesh));;
  Ok (num_trees cmesh).

Definition t8_cmesh_get_local_num_trees (cmesh : t8_cmesh) : res Z :=
  T8_ASSERT (truthy (committed cmesh));;
  if truthy (set_partitioned cmesh) then Ok (num_local_trees cmesh)
  else Ok (num_trees cmesh).

Definition t8_cmesh_get_tree_class (cmesh : t8_cmesh) (tree_id : Z)
  : res t8_eclass_t :=
  T8_ASSERT (truthy (committed cmesh));;
  T8_ASSERT (t8_cmesh_tree_id_is_valid cmesh tree_id);;
  slot ← t8_sc_array_index_topidx (ctrees cmesh)
           (t8_cmesh_tree_index cmesh tree_id);
  match slot with
  | Some tree => Ok (eclass tree)
  | None => Err UndefinedBehavior
  end.

Definition cmesh_with_rc (cmesh : t8_cmesh) (r : t8_refcount_t) : t8_cmesh :=
  {| committed := committed cmesh; dimension := dimension cmesh;
     do_dup := do_dup cmesh; set_partitioned := set_partitioned cmesh;
     mpicomm := mpicomm cmesh; mpirank := mpirank cmesh;
     mpisize := mpisize cmesh; rc := r; num_trees := num_trees cmesh;
     num_local_trees := num_local_trees cmesh; num_ghosts := num_ghosts cmesh;
     num_trees_per_eclass := num_trees_per_eclass cmesh;
     ctrees := ctrees cmesh; first_tree := first_tree cmesh;
     tree_offsets := tree_offsets cmesh |}.

(** What [t8_cmesh_reset] hands back to the system. *)
Record teardown : Type := {
  freed_comm : option sc_MPI_Comm;   (* argument of [sc_MPI_Comm_free] *)
  freed_face_neighbors : Z;          (* trees whose neighbour array is freed *)
  destroyed_ctrees : bool;
  freed_tree_offsets : bool;
}.

(** What there is to release in a mesh. *)
Definition teardown_of (cmesh : t8_cmesh) : teardown :=
  {| freed_comm :=
       if truthy (do_dup cmesh) && truthy (committed cmesh)
       then Some (mpicomm cmesh) else None;
     freed_face_neighbors :=
       match ctrees cmesh with
       | Some _ => Z.max 0 (num_local_trees cmesh)
       | None => 0
       end;
     destroyed_ctrees := bool_decide (is_Some (ctrees cmesh));
     freed_tree_offsets := bool_decide (is_Some (tree_offsets cmesh)) |}.




Section UniformBounds.

(** [long_double_share G k P] is the [t8_gloidx_t] value of the C expression
    [((long double) G * k) / (double) P]: the product and the quotient are
    rounded by the platform's [long double] arithmetic and the conversion
    back to an integer truncates. *)
Variable long_double_share : Z -> Z -> Z -> Z.

Definition children_per_tree (cmesh : t8_cmesh) (level : Z) : res Z :=
  gloidx_shl 1 (dimension cmesh * level).

Definition global_num_children (cmesh : t8_cmesh) (level : Z) : res Z :=
  c ← children_per_tree cmesh level;
  gloidx_mul (num_trees cmesh) c.

Definition first_global_child (cmesh : t8_cmesh) (G : Z) : Z :=
  if mpirank cmesh =? 0 then 0
  else long_double_share G (mpirank cmesh) (mpisize cmesh).

Definition last_global_child (cmesh : t8_cmesh) (G : Z) : Z :=
  if negb (mpirank cmesh =? mpisize cmesh - 1)
  then long_double_share G (mpirank cmesh + 1) (mpisize cmesh)
  else G.

(** Returns [(first_local_tree, child_in_tree_begin, last_local_tree,
    child_in_tree_end)]. *)
Definition t8_cmesh_uniform_bounds (cmesh : t8_cmesh) (level : Z)
  : res (Z * Z * Z * Z) :=
  if num_trees_per_eclass cmesh T8_ECLASS_PYRAMID =? 0 then
    c ← children_per_tree cmesh level;
    G ← gloidx_mul (num_trees cmesh) c;
    let first_child := first_global_child cmesh G in
    let last_child := last_global_child cmesh G in
    T8_ASSERT ((0 <=? first_child) && (first_child <=? G));;
    T8_ASSERT ((0 <=? last_child) && (last_child <=? G));;
    let first_local_tree := first_child ÷ c in
    let child_in_tree_begin := first_child - first_local_tree * c in
    let last_local_tree :=
      if first_child <? last_child then (last_child - 1) ÷ c
      else first_local_tree in
    let child_in_tree_end :=
      if 0 <? last_local_tree then last_child - last_local_tree * c
      else last_child in
    Ok (first_local_tree, child_in_tree_begin,
        last_local_tree, child_in_tree_end)
  else Err Unsupported.

End UniformBounds.

(** ** Ready-made meshes *)

Definition t8_cmesh_new_with (mpi : mpi_env) (comm : sc_MPI_Comm) (dup : Z)
    (n : Z) (classes : list (Z * t8_eclass_t)) : res t8_cmesh :=
  cmesh ← t8_cmesh_set_mpicomm t8_cmesh_init comm dup;
  cmesh ← t8_cmesh_set_num_trees cmesh n;
  cmesh ← foldM (fun cm ic => t8_cmesh_set_tree cm ic.1 ic.2) classes cmesh;
  t8_cmesh_commit mpi cmesh.

Definition t8_cmesh_new_tri (mpi : mpi_env) (comm : sc_MPI_Comm) (dup : Z) :=
  t8_cmesh_new_with mpi comm dup 1 [(0, T8_ECLASS_TRIANGLE)].

Definition t8_cmesh_new_tet (mpi : mpi_env) (comm : sc_MPI_Comm) (dup : Z) :=
  t8_cmesh_new_with mpi comm dup 1 [(0, T8_ECLASS_TET)].

Definition t8_cmesh_new_quad (mpi : mpi_env) (comm : sc_MPI_Comm) (dup : Z) :=
  t8_cmesh_new_with mpi comm dup 1 [(0, T8_ECLASS_QUAD)].

Definition t8_cmesh_new_hex (mpi : mpi_env) (comm : sc_MPI_Comm) (dup : Z) :=
  t8_cmesh_new_with mpi comm dup 1 [(0, T8_ECLASS_HEX)].

Definition num_trees_for_hypercube (c : t8_eclass_t) : Z :=
  match c with
  | T8_ECLASS_VERTEX => 1
  | T8_ECLASS_LINE => 1
  | T8_ECLASS_QUAD => 1
  | T8_ECLASS_TRIANGLE => 2
  | T8_ECLASS_HEX => 1
  | T8_ECLASS_TET => 6
  | T8_ECLASS_PRISM => 2
  | T8_ECLASS_PYRAMID => 3
  end.

Definition t8_cmesh_new_hypercube (mpi : mpi_env) (c : t8_eclass_t)
    (comm : sc_MPI_Comm) (dup : Z) : res t8_cmesh :=
  t8_cmesh_new_with mpi comm dup (num_trees_for_hypercube c)
    ((fun i => (i, c)) <$> seqZ 0 (num_trees_for_hypercube c)).

(** ** Committed meshes *)

(** The trees a mesh holds in its array. *)
Definition cmesh_trees (cmesh : t8_cmesh) : list t8_ctree :=
  match ctrees cmesh with
  | Some a => omap id a
  | None => []
  end.

Definition cmesh_has_eclass (cmesh : t8_cmesh) (c : t8_eclass_t) : Prop :=
  ∃ t, t ∈ cmesh_trees cmesh ∧ eclass t = c.

Definition count_eclass (c : t8_eclass_t) (l : list t8_ctree) : Z :=
  Z.of_nat (length (filter (fun t => eclass t = c) l)).

(** The state [t8_cmesh_commit] leaves behind when every tree of the array
    was set once: the flag is up, there are trees, the communicator gave a
    rank inside its size, the dimension is that of the trees, and the
    per-class table counts the trees of the array. *)
Record cmesh_is_committed (cmesh : t8_cmesh) : Prop := {
  committed_flag : committed cmesh ≠ 0;
  committed_num_trees : 0 < num_trees cmesh;
  committed_rank : 0 <= mpirank cmesh < mpisize cmesh;
  committed_dimension : 0 <= dimension cmesh <= 3;
  committed_classes :
    ∀ c, num_trees_per_eclass cmesh c = count_eclass c (cmesh_trees cmesh);
}.

(** The same frozen mesh as rank [r] of the communicator sees it. *)
Definition cmesh_at_rank (cmesh : t8_cmesh) (r : Z) : t8_cmesh :=
  {| committed := committed cmesh; dimension := dimension cmesh;
     do_dup := do_dup cmesh; set_partitioned := set_partitioned cmesh;
     mpicomm := mpicomm cmesh; mpirank := r;
     mpisize := mpisize cmesh; rc := rc cmesh; num_trees := num_trees cmesh;
     num_local_trees := num_local_trees cmesh; num_ghosts := num_ghosts cmesh;
     num_trees_per_eclass := num_trees_per_eclass cmesh;
     ctrees := ctrees cmesh; first_tree := first_tree cmesh;
     tree_offsets := tree_offsets cmesh |}.

(** The interval of global children that the four outputs of
    [t8_cmesh_uniform_bounds] describe, for [c] children per tree. *)
Definition child_interval (c : Z) (out : Z * Z * Z * Z) : Z * Z :=
  let '(first_local_tree, child_in_tree_begin,
        last_local_tree, child_in_tree_end) := out in
  (first_local_tree * c + child_in_tree_begin,
   last_local_tree * c + child_in_tree_end).

(** What the assertions of [t8_cmesh_uniform_bounds] ask of the platform's
    [long double] arithmetic at the ranks of a communicator of size [P]:
    a share of [G] lies inside [0, G]. *)
Definition share_in_range (share : Z -> Z -> Z -> Z) (G P : Z) : Prop :=
  ∀ k, 0 < k < P → 0 <= share G k P <= G.


(** Arithmetic that does not round: the share is the exact quotient. *)
Definition exact_share (G k P : Z) : Z := G * k / P.

Definition mpi_single : mpi_env :=
  {| sc_MPI_Comm_dup := fun c =>
       match c with sc_MPI_Comm_handle i => sc_MPI_Comm_handle (S i)
                  | _ => sc_MPI_Comm_handle 0 end;
     sc_MPI_Comm_size := fun _ => 1;
     sc_MPI_Comm_rank := fun _ => 0 |}.

Definition mpi_rank_of (r P : Z) : mpi_env :=
  {| sc_MPI_Comm_dup := fun c =>
       match c with sc_MPI_Comm_handle i => sc_MPI_Comm_handle (S i)
                  | _ => sc_MPI_Comm_handle 0 end;
     sc_MPI_Comm_size := fun _ => P;
     sc_MPI_Comm_rank := fun _ => r |}.

(** ** Sequences of [ref] and [unref] calls on one mesh pointer *)





(** The children interval of rank [r] of the mesh's communicator, [G] being
    the global number of children. *)
Definition rank_children (share : Z -> Z -> Z -> Z) (cmesh : t8_cmesh)
    (G r : Z) : Z * Z :=
  (first_global_child share (cmesh_at_rank cmesh r) G,
   last_global_child share (cmesh_at_rank cmesh r) G).

(** ** Meshes used as examples *)

Definition res_get {A : Type} (d : A) (r : res A) : A :=
  match r with
  | Ok a => a
  | Err _ => d
  end.

(** A partitioned mesh in the Configuring state: 10 global trees, of which
    the three trees 5, 6 and 7 are local. *)
Definition partitioned_5_3 : res t8_cmesh :=
  cmesh ← t8_cmesh_set_partitioned t8_cmesh_init 1 10 5 0;
  t8_cmesh_set_num_trees cmesh 3.

Definition mesh_partitioned : t8_cmesh :=
  Eval vm_compute in res_get t8_cmesh_init partitioned_5_3.


Definition mesh_hex : t8_cmesh :=
  Eval vm_compute in
    res_get t8_cmesh_init (t8_cmesh_new_hex mpi_single sc_MPI_COMM_WORLD 0).




(** Three triangles, as rank 2 of 4 commits them. *)
Definition three_triangles : res t8_cmesh :=
  t8_cmesh_new_with (mpi_rank_of 2 4) sc_MPI_COMM_WORLD 0 3
    [(0, T8_ECLASS_TRIANGLE); (1, T8_ECLASS_TRIANGLE); (2, T8_ECLASS_TRIANGLE)].

Definition mesh_triangles : t8_cmesh :=
  Eval vm_compute in res_get t8_cmesh_init three_triangles.

(** The unit cube as six tetrahedra. *)
Definition mesh_tets : t8_cmesh :=
  Eval vm_compute in
    res_get t8_cmesh_init
      (t8_cmesh_new_hypercube mpi_single T8_ECLASS_TET sc_MPI_COMM_WORLD 0).

(** ** Sequences of configuration calls on one mesh *)

Inductive cmesh_call : Type :=
  | call_set_mpicomm (comm : sc_MPI_Comm) (dup : Z)
  | call_set_partitioned (partitioned num_global_trees first_local_tree ghosts : Z)
  | call_set_num_trees (n : Z)
  | call_set_tree (tree_id : Z) (tree_class : t8_eclass_t)
  | call_commit.

#[global] Instance cmesh_call_eq_dec : EqDecision cmesh_call.
Proof. solve_decision. Defined.

Definition cmesh_call_run (mpi : mpi_env) (cmesh : t8_cmesh)
    (call : cmesh_call) : res t8_cmesh :=
  match call with
  | call_set_mpicomm comm dup => t8_cmesh_set_mpicomm cmesh comm dup
  | call_set_partitioned partitioned num_global_trees first_local_tree ghosts =>
      t8_cmesh_set_partitioned cmesh partitioned num_global_trees
        first_local_tree ghosts
  | call_set_num_trees n => t8_cmesh_set_num_trees cmesh n
  | call_set_tree tree_id tree_class => t8_cmesh_set_tree cmesh tree_id tree_class
  | call_commit => t8_cmesh_commit mpi cmesh
  end.

(** The mesh that [t8_cmesh_init] followed by the calls leaves, if every
    call returns. *)
Definition cmesh_calls_run (mpi : mpi_env) (calls : list cmesh_call)
  : res t8_cmesh :=
  foldM (cmesh_call_run mpi) calls t8_cmesh_init.

(** The class that the last [t8_cmesh_set_tree] call for the tree gave. *)
Definition last_set_tree (calls : list cmesh_call) (id : Z)
  : option t8_eclass_t :=
  last (omap (fun call =>
                match call with
                | call_set_tree tree_id tree_class =>
                    if decide (tree_id = id) then Some tree_class else None
                | _ => None
                end) calls).

Definition is_set_tree_of (c : t8_eclass_t) (call : cmesh_call) : bool :=
  match call with
  | call_set_tree _ tree_class => bool_decide (tree_class = c)
  | _ => false
  end.

(** The number of [t8_cmesh_set_tree] calls for the class. *)
Definition set_tree_calls (calls : list cmesh_call) (c : t8_eclass_t) : Z :=
  Z.of_nat (length (filter (fun call => is_set_tree_of c call = true) calls)).

(** Three trees on one process: tree 0 is a quadrilateral, tree 1 is set as
    a triangle and then once more as a quadrilateral, tree 2 is never set. *)
Definition calls_configuring : list cmesh_call :=
  [call_set_mpicomm sc_MPI_COMM_WORLD 0; call_set_num_trees 3;
   call_set_tree 0 T8_ECLASS_QUAD; call_set_tree 1 T8_ECLASS_TRIANGLE].

Definition calls_committing : list cmesh_call :=
  [call_set_tree 1 T8_ECLASS_QUAD; call_commit].

Definition mesh_configuring : t8_cmesh :=
  Eval vm_compute in
    res_get t8_cmesh_init (cmesh_calls_run mpi_single calls_configuring).

Definition mesh_set_twice : t8_cmesh :=
  Eval vm_compute in
    res_get t8_cmesh_init
      (cmesh_calls_run mpi_single (calls_configuring ++ calls_committing)).

End Cmesh.

(** ** The ghost layer (t8_forest_ghost.cxx) *)

Module Ghost.

(** The value a variable or field of type [t8_locidx_t] holds once a
    [t8_gloidx_t] value is assigned to it.  [t8_locidx_t] is declared in a
    header that is not part of these sources, so the conversion is a
    parameter of the model. *)
Class t8_locidx_conversion : Type := t8_locidx_of : Z -> Z.

Section WithElements.

(** The fine elements are opaque to the ghost layer. *)
Context {t8_element_t : Type}.

Context {conv : t8_locidx_conversion}.

(** The element scheme of one class, as far as the ghost layer calls it. *)
Record t8_eclass_scheme_c : Type := {
  t8_element_level : t8_element_t -> Z;
  t8_element_get_linear_id : t8_element_t -> Z -> Z;
  t8_element_num_faces : t8_element_t -> Z;
  t8_element_num_face_children : t8_element_t -> Z -> Z;
}.

(** A coarse tree as [t8_forest_get_coarse_tree_ext] hands it out, with the
    array of the cmesh-local ids of its face neighbours. *)
Record t8_ctree : Type := {
  treeid : Z;
  eclass : t8_eclass_t;
  face_neighbors : Z -> Z;
}.

(** The forest and its cmesh, as far as the ghost layer queries them. *)
Record t8_forest : Type := {
  t8_forest_is_committed : bool;
  mpirank : Z;
  mpisize : Z;
  t8_forest_get_num_local_trees : Z;
  t8_forest_get_first_local_tree_id : Z;
  t8_forest_first_tree_shared : bool;
  t8_forest_last_tree_shared : bool;
  t8_forest_get_tree_class : Z -> t8_eclass_t;
  t8_forest_get_eclass : Z -> t8_eclass_t;
  t8_forest_get_eclass_scheme : t8_eclass_t -> t8_eclass_scheme_c;
  (* [t8_forest_get_tree], [t8_forest_get_tree_element_count] and
     [t8_forest_get_tree_element]: the elements of a local tree in
     storage order *)
  t8_forest_get_tree_elements : Z -> list t8_element_t;
  t8_forest_get_coarse_tree_ext : Z -> t8_ctree;
  t8_forest_cmesh_ltreeid_to_ltreeid : Z -> Z;
  t8_forest_element_neighbor_eclass : Z -> t8_element_t -> Z -> t8_eclass_t;
  (* the half-size neighbours written to the scratch array, by index, and
     the global id of the neighbour tree *)
  t8_forest_element_half_face_neighbors :
    Z -> t8_element_t -> Z -> Z -> (Z -> t8_element_t) * Z;
  t8_forest_element_find_owner : Z -> t8_element_t -> t8_eclass_t -> Z;
  t8_cmesh_get_first_treeid : Z;
  t8_cmesh_get_num_local_trees : Z;
  t8_cmesh_get_num_ghosts : Z;
  t8_cmesh_get_tree_class : Z -> t8_eclass_t;
  t8_cmesh_get_ghost_class : Z -> t8_eclass_t;
}.

Record t8_ghost_tree_t : Type := {
  global_id : Z;
  ghost_eclass : t8_eclass_t;
  elements : list t8_element_t;
}.

(* the id is declared [t8_locidx_t] here and [t8_gloidx_t] in
   [t8_ghost_tree_t]: what is stored is the converted id *)
Record t8_ghost_remote_tree_t : Type := {
  remote_global_id : Z;
  remote_eclass : t8_eclass_t;
  remote_elements : list t8_element_t;
}.

Record t8_ghost_remote_t : Type := {
  remote_rank : Z;
  remote_trees : list t8_ghost_remote_tree_t;
}.

(** The ghost structure.  The hash table [global_tree_to_ghost_tree] holds
    one [t8_ghost_gtree_hash_t] per global tree id, two entries being equal
    when their ids are: a finite map from the id to the [index] field.
    [remote_ghosts] is the array of the hash array; its hash finds an
    entry by [remote_rank]. *)
Record t8_forest_ghost : Type := {
  rc : t8_refcount_t;
  ghost_trees : list t8_ghost_tree_t;
  global_tree_to_ghost_tree : gmap Z nat;
  process_offsets : gmap Z (nat * nat);
  processes : list Z;
  remote_ghosts : list t8_ghost_remote_t;
  remote_processes : list Z;
}.

Definition t8_ghost_tree_compare (A B : t8_ghost_tree_t) : Z :=
  if global_id A <? global_id B then -1
  else if bool_decide (global_id A ≠ global_id B) then 1 else 0.

(** [a] may stand before [b] in an array sorted by [compar]. *)
Definition compar_le {A : Type} (compar : A -> A -> Z) : relation A :=
  fun a b => compar a b <= 0.

#[global] Instance compar_le_dec {A : Type} (compar : A -> A -> Z) (a b : A)
  : Decision (compar_le compar a b).
Proof. unfold compar_le. apply _. Defined.

(** [sc_array_sort]: the array sorted by the comparison function. *)
Definition sc_array_sort {A : Type} (compar : A -> A -> Z) (l : list A)
  : list A :=
  merge_sort (compar_le compar) l.

Definition t8_forest_ghost_init : t8_forest_ghost :=
  {| rc := t8_refcount_init;
     ghost_trees := [];
     global_tree_to_ghost_tree := ∅;
     process_offsets := ∅;
     processes := [];
     remote_ghosts := [];
     remote_processes := [] |}.

Section AddTree.

(** The local [lctree_id] of [t8_forest_ghost_add_tree] is read without
    ever being written (the id computed is stored in [lctreeid]); it
    stands for whatever value the read yields. *)
Variable lctree_id : Z.

Definition t8_forest_ghost_add_tree (forest : t8_forest)
    (ghost : t8_forest_ghost) (gtreeid : Z) : res t8_forest_ghost :=
  T8_ASSERT (t8_forest_is_committed forest);;
  let lctreeid := t8_locidx_of (gtreeid - t8_cmesh_get_first_treeid forest) in
  let num_cmesh_local_trees := t8_cmesh_get_num_local_trees forest in
  T8_ASSERT ((0 <=? lctree_id)
             && (lctree_id <? num_cmesh_local_trees
                              + t8_cmesh_get_num_ghosts forest));;
  let eclass :=
    if lctree_id <? num_cmesh_local_trees
    then t8_cmesh_get_tree_class forest lctreeid
    else t8_cmesh_get_ghost_class forest
           (lctreeid - t8_cmesh_get_num_local_trees forest) in
  match global_tree_to_ghost_tree ghost !! gtreeid with
  | Some _ => Ok ghost
  | None =>
      let ghost_tree := {| global_id := gtreeid; ghost_eclass := eclass;
                           elements := [] |} in
      Ok {| rc := rc ghost;
            ghost_trees := ghost_trees ghost ++ [ghost_tree];
            global_tree_to_ghost_tree :=
              <[gtreeid := length (ghost_trees ghost)]>
                (global_tree_to_ghost_tree ghost);
            process_offsets := process_offsets ghost;
            processes := processes ghost;
            remote_ghosts := remote_ghosts ghost;
            remote_processes := remote_processes ghost |}
  end.

(** The last loop of [t8_forest_ghost_fill_ghost_tree_array]: point the
    hash entry of every ghost tree at the tree's new index. *)
Definition reset_gtree_index (table : gmap Z nat)
    (entry : nat * t8_ghost_tree_t) : res (gmap Z nat) :=
  match table !! global_id entry.2 with
  | None => Err ContractViolation
  | Some _ => Ok (<[global_id entry.2 := entry.1]> table)
  end.

Definition t8_forest_ghost_fill_ghost_tree_array (forest : t8_forest)
    (ghost : t8_forest_ghost) : res t8_forest_ghost :=
  T8_ASSERT (t8_forest_is_committed forest);;
  let num_local_trees := t8_forest_get_num_local_trees forest in
  ghost ← (if t8_forest_first_tree_shared forest
           then t8_forest_ghost_add_tree forest ghost
                  (t8_forest_get_first_local_tree_id forest)
           else Ok ghost);
  ghost ← (if t8_forest_last_tree_shared forest
           then t8_forest_ghost_add_tree forest ghost
                  (t8_forest_get_first_local_tree_id forest
                   + num_local_trees - 1)
           else Ok ghost);
  let first_ctreeid := t8_locidx_of (t8_cmesh_get_first_treeid forest) in
  ghost ← foldM (fun ghost itree =>
             let ctree := t8_forest_get_coarse_tree_ext forest itree in
             let num_faces := t8_eclass_num_faces (eclass ctree) in
             foldM (fun ghost iface =>
                 let lneighid :=
                   t8_forest_cmesh_ltreeid_to_ltreeid forest
                     (face_neighbors ctree iface) in
                 if lneighid =? -1
                 then t8_forest_ghost_add_tree forest ghost
                        (treeid ctree + first_ctreeid)
                 else Ok ghost)
               (seqZ 0 num_faces) ghost)
           (seqZ 0 num_local_trees) ghost;
  let sorted := sc_array_sort t8_ghost_tree_compare (ghost_trees ghost) in
  table ← foldM reset_gtree_index (imap (fun it tree => (it, tree)) sorted)
            (global_tree_to_ghost_tree ghost);
  Ok {| rc := rc ghost;
        ghost_trees := sorted;
        global_tree_to_ghost_tree := table;
        process_offsets := process_offsets ghost;
        processes := processes ghost;
        remote_ghosts := remote_ghosts ghost;
        remote_processes := remote_processes ghost |}.

(** *** Remote elements *)






(** *** Ghost construction *)






End AddTree.

(** *** Reference counting and teardown *)

(** A variable of type [t8_forest_ghost_t]: null, the address of a live
    structure, or the address of a structure that has been freed. *)
Inductive t8_forest_ghost_ptr : Type :=
  | ghost_null
  | ghost_live (ghost : t8_forest_ghost)
  | ghost_dangling.

Definition ghost_with_rc (ghost : t8_forest_ghost) (r : t8_refcount_t)
  : t8_forest_ghost :=
  {| rc := r;
     ghost_trees := ghost_trees ghost;
     global_tree_to_ghost_tree := global_tree_to_ghost_tree ghost;
     process_offsets := process_offsets ghost;
     processes := processes ghost;
     remote_ghosts := remote_ghosts ghost;
     remote_processes := remote_processes ghost |}.

(** [t8_forest_ghost_reset (pghost)]: the value of [*pghost] when the call
    returns.  The structure is freed; the closing statement [pghost = NULL]
    assigns to the parameter of the function, so the caller's variable
    keeps the address. *)
Definition t8_forest_ghost_reset (pghost : t8_forest_ghost_ptr)
  : res t8_forest_ghost_ptr :=
  match pghost with
  | ghost_null => Err ContractViolation
  | ghost_dangling => Err UndefinedBehavior
  | ghost_live ghost =>
      T8_ASSERT (refcount (rc ghost) =? 0);;
      Ok ghost_dangling
  end.

Definition t8_forest_ghost_ref (ghost : t8_forest_ghost_ptr)
  : res t8_forest_ghost :=
  match ghost with
  | ghost_null => Err ContractViolation
  | ghost_dangling => Err UndefinedBehavior
  | ghost_live g =>
      r ← t8_refcount_ref (rc g);
      Ok (ghost_with_rc g r)
  end.

(** [t8_forest_ghost_unref (pghost)]: the value of [*pghost] when the call
    returns. *)
Definition t8_forest_ghost_unref (pghost : t8_forest_ghost_ptr)
  : res t8_forest_ghost_ptr :=
  match pghost with
  | ghost_null => Err ContractViolation
  | ghost_dangling => Err UndefinedBehavior
  | ghost_live g =>
      match t8_refcount_unref (rc g) with
      | Err e => Err e
      | Ok (r, is_zero) =>
          if is_zero then t8_forest_ghost_reset (ghost_live (ghost_with_rc g r))
          else Ok (ghost_live (ghost_with_rc g r))
      end
  end.

(** [t8_refcount_is_last] is declared in t8_refcount.h, which is not among
    the sources: the test is a parameter. *)
Definition t8_forest_ghost_destroy (t8_refcount_is_last : t8_refcount_t -> bool)
    (pghost : t8_forest_ghost_ptr) : res t8_forest_ghost_ptr :=
  match pghost with
  | ghost_null => Err ContractViolation
  | ghost_dangling => Err UndefinedBehavior
  | ghost_live g =>
      T8_ASSERT (t8_refcount_is_last (rc g));;
      p ← t8_forest_ghost_unref pghost;
      T8_ASSERT (match p with ghost_null => true | _ => false end);;
      Ok p
  end.

End WithElements.

(** *** Hash and equality functions of the three hash tables *)

Record t8_ghost_gtree_hash_t : Type := {
  gtree_global_id : Z;
  gtree_index : Z;
}.

Record t8_ghost_process_hash_t : Type := {
  process_mpirank : Z;
  process_tree_index : Z;
  process_first_element : Z;
}.

(** The value of an integer converted to [unsigned], an unsigned type of
    [bits] bits. *)
Definition to_unsigned (bits : Z) (z : Z) : Z := z mod 2 ^ bits.

Definition t8_ghost_gtree_hash_function (bits : Z)
    (object : t8_ghost_gtree_hash_t) : Z :=
  to_unsigned bits (gtree_global_id object).

Definition t8_ghost_gtree_equal_function (objecta objectb : t8_ghost_gtree_hash_t)
  : Z :=
  if bool_decide (gtree_global_id objecta = gtree_global_id objectb)
  then 1 else 0.

Definition t8_ghost_process_hash_function (bits : Z)
    (process : t8_ghost_process_hash_t) : Z :=
  to_unsigned bits (process_mpirank process).

Definition t8_ghost_process_equal_function
    (processa processb : t8_ghost_process_hash_t) : res Z :=
  T8_ASSERT (bool_decide (process_mpirank processa ≠ process_mpirank processb)
             || (bool_decide (process_first_element processa
                              = process_first_element processb)
                 && bool_decide (process_tree_index processa
                                 = process_tree_index processb)));;
  Ok (if bool_decide (process_mpirank processa = process_mpirank processb)
      then 1 else 0).

Definition t8_ghost_remote_hash_function {t8_element_t : Type} (bits : Z)
    (remote : t8_ghost_remote_t (t8_element_t := t8_element_t)) : Z :=
  to_unsigned bits (remote_rank remote).

Definition t8_ghost_remote_equal_function {t8_element_t : Type}
    (remotea remoteb : t8_ghost_remote_t (t8_element_t := t8_element_t)) : Z :=
  if bool_decide (remote_rank remotea = remote_rank remoteb) then 1 else 0.

Arguments t8_forest_ghost_ptr : clear implicits.
Arguments t8_eclass_scheme_c : clear implicits.
Arguments t8_forest : clear implicits.
Arguments t8_ghost_tree_t : clear implicits.
Arguments t8_ghost_remote_tree_t : clear implicits.
Arguments t8_ghost_remote_t : clear implicits.
Arguments t8_forest_ghost : clear implicits.

(** The hash table finds every ghost tree by its id: the entry of an id
    holds the index at which [ghost_trees] has the tree of that id. *)
Definition ghost_index_ok {E : Type} (ghost : t8_forest_ghost E) : Prop :=
  ∀ (id : Z) (i : nat),
    global_tree_to_ghost_tree ghost !! id = Some i
    ↔ global_id <$> (ghost_trees ghost !! i) = Some id.


Section RemoteOrder.

Context {E : Type}.

(** The linear id of an element at its own level. *)
Definition linear_key (ts : t8_eclass_scheme_c E) (e : E) : Z :=
  t8_element_get_linear_id ts e (t8_element_level ts e).

(** Two elements that [t8_ghost_add_remote] takes for the same one. *)
Definition same_element (ts : t8_eclass_scheme_c E) (a b : E) : Prop :=
  t8_element_level ts a = t8_element_level ts b
  ∧ linear_key ts a = linear_key ts b.

(** Keys that do not decrease along the list. *)
Definition key_order (key : E -> Z) (l : list E) : Prop :=
  StronglySorted (fun a b => key a <= key b) l.


Definition no_consecutive_duplicates (ts : t8_eclass_scheme_c E)
    (l : list E) : Prop :=
  ∀ (i : nat) (a b : E),
    l !! i = Some a → l !! S i = Some b → ¬ same_element ts a b.



End RemoteOrder.

(** ** A forest used as an example

    Rank 0 of 2 owns the trees 3 and 4 of quads; an element is its level and
    its linear id.  Every element has two faces, the first on the domain
    boundary and the second towards tree 5, whose two half-size neighbours
    rank 1 owns.  The last local tree is shared with rank 1. *)

(** A [t8_locidx_t] of 32 bits, two's complement, for the examples. *)
Definition locidx_32 : t8_locidx_conversion :=
  fun z => (z + 2 ^ 31) mod 2 ^ 32 - 2 ^ 31.

Definition pair_scheme : t8_eclass_scheme_c (Z * Z) :=
  {| t8_element_level := fun e => e.1;
     t8_element_get_linear_id := fun e _ => e.2;
     t8_element_num_faces := fun _ => 2;
     t8_element_num_face_children := fun _ _ => 2 |}.

Definition forest_two_quads : t8_forest (Z * Z) :=
  {| t8_forest_is_committed := true;
     mpirank := 0;
     mpisize := 2;
     t8_forest_get_num_local_trees := 2;
     t8_forest_get_first_local_tree_id := 3;
     t8_forest_first_tree_shared := false;
     t8_forest_last_tree_shared := true;
     t8_forest_get_tree_class := fun _ => T8_ECLASS_QUAD;
     t8_forest_get_eclass := fun _ => T8_ECLASS_QUAD;
     t8_forest_get_eclass_scheme := fun _ => pair_scheme;
     t8_forest_get_tree_elements := fun itree =>
       if itree =? 0 then [(1, 0); (1, 1); (1, 3)] else [(2, 4); (2, 5)];
     t8_forest_get_coarse_tree_ext := fun itree =>
       {| treeid := itree; eclass := T8_ECLASS_QUAD;
          face_neighbors := fun iface => itree + iface |};
     t8_forest_cmesh_ltreeid_to_ltreeid := fun l => if l <? 2 then l else -1;
     t8_forest_element_neighbor_eclass := fun _ _ _ => T8_ECLASS_QUAD;
     t8_forest_element_half_face_neighbors := fun _ e iface _ =>
       (fun _ => e, if iface =? 0 then -1 else 5);
     t8_forest_element_find_owner := fun _ _ _ => 1;
     t8_cmesh_get_first_treeid := 3;
     t8_cmesh_get_num_local_trees := 2;
     t8_cmesh_get_num_ghosts := 1;
     t8_cmesh_get_tree_class := fun _ => T8_ECLASS_QUAD;
     t8_cmesh_get_ghost_class := fun _ => T8_ECLASS_QUAD |}.

End Ghost.

(** * Properties of the coarse mesh *)

Import Cmesh.


Lemma T8_ASSERT_true {A : Type} (b : bool) (k : res A) :
  b = true → (T8_ASSERT b;; k) = k.
Proof. intros ->. reflexivity. Qed.

Lemma T8_ASSERT_false {A : Type} (b : bool) (k : res A) :
  b = false → (T8_ASSERT b;; k) = Err ContractViolation.
Proof. intros ->. reflexivity. Qed.

Lemma truthy_true (z : Z) : truthy z = true ↔ z ≠ 0.
Proof. unfold truthy. destruct (Z.eqb_spec z 0); naive_solver. Qed.

Lemma truthy_false (z : Z) : truthy z = false ↔ z = 0.
Proof. unfold truthy. destruct (Z.eqb_spec z 0); naive_solver. Qed.

(** ** Tree ids accepted by [set_tree] *)

Lemma tree_id_is_valid_partitioned (cmesh : t8_cmesh) (tree_id : Z) :
  set_partitioned cmesh ≠ 0 →
  t8_cmesh_tree_id_is_valid cmesh tree_id = true
  ↔ first_tree cmesh < tree_id < first_tree cmesh + num_local_trees cmesh.
Proof.
  intros Hp. unfold t8_cmesh_tree_id_is_valid.
  rewrite (proj2 (truthy_true _) Hp), andb_true_iff, !Z.ltb_lt. lia.
Qed.

Lemma tree_id_is_valid_replicated (cmesh : t8_cmesh) (tree_id : Z) :
  set_partitioned cmesh = 0 →
  t8_cmesh_tree_id_is_valid cmesh tree_id = true
  ↔ 0 <= tree_id < num_trees cmesh.
Proof.
  intros Hp. unfold t8_cmesh_tree_id_is_valid.
  rewrite (proj2 (truthy_false _) Hp), andb_true_iff, Z.leb_le, Z.ltb_lt. lia.
Qed.

(** Claim C6, where the code departs from it: on a partitioned mesh the
    strict comparison [first_tree < tree_id] of [t8_cmesh_tree_id_is_valid]
    turns the first local tree away, so [t8_cmesh_set_tree] fails its
    assertion for [tree_id = first_tree], an id inside the local range
    [first_tree, first_tree + num_local_trees). *)
Theorem set_tree_first_local_tree_rejected (cmesh : t8_cmesh) (c : t8_eclass_t) :
  set_partitioned cmesh ≠ 0 →
  t8_cmesh_tree_id_is_valid cmesh (first_tree cmesh) = false
  ∧ t8_cmesh_set_tree cmesh (first_tree cmesh) c = Err ContractViolation.
Proof.
  intros Hp.
  assert (Hv : t8_cmesh_tree_id_is_valid cmesh (first_tree cmesh) = false).
  { apply not_true_is_false. rewrite tree_id_is_valid_partitioned by done. lia. }
  split; [done|]. unfold t8_cmesh_set_tree. rewrite Hv.
  destruct (negb (truthy (committed cmesh))); reflexivity.
Qed.

Lemma set_tree_first_local_tree_rejected_witness :
  partitioned_5_3 = Ok mesh_partitioned
  ∧ committed mesh_partitioned = 0 ∧ set_partitioned mesh_partitioned ≠ 0
  ∧ first_tree mesh_partitioned = 5 ∧ num_local_trees mesh_partitioned = 3
  ∧ t8_cmesh_tree_id_is_valid mesh_partitioned 5 = false
  ∧ t8_cmesh_set_tree mesh_partitioned 5 T8_ECLASS_QUAD = Err ContractViolation
  ∧ t8_cmesh_tree_id_is_valid mesh_partitioned 6 = true.
Proof.
  destruct (set_tree_first_local_tree_rejected mesh_partitioned T8_ECLASS_QUAD)
    as [H1 H2]; [simpl; lia|].
  split; [vm_compute; reflexivity|]. split; [reflexivity|].
  split; [simpl; lia|]. split; [reflexivity|]. split; [reflexivity|].
  split; [exact H1|]. split; [exact H2|reflexivity].
Defined.

(** ** Queries before commit *)

(** Claim C7 fails for [get_mpicomm]: the mesh that [t8_cmesh_init] returns
    is not committed, and [t8_cmesh_get_mpicomm] answers with the world
    communicator and a zero [do_dup]. *)
Lemma get_mpicomm_before_commit :
  committed t8_cmesh_init = 0
  ∧ t8_cmesh_get_mpicomm t8_cmesh_init = Ok (sc_MPI_COMM_WORLD, 0)
  ∧ t8_cmesh_get_mpicomm t8_cmesh_init ≠ Err ContractViolation.
Proof. split; [reflexivity|]. split; [reflexivity|]. discriminate. Qed.

(** Claim C7, amended: on a mesh that is not committed, [num_trees],
    [num_local_trees] and [tree_class] fail as contract violations;
    [get_mpicomm] does not look at the commit flag: it returns the
    communicator and [do_dup] whenever the reference count is positive and
    the communicator is not null, and is a contract violation otherwise. *)
Theorem queries_before_commit (cmesh : t8_cmesh) :
  committed cmesh = 0 →
  t8_cmesh_get_num_trees cmesh = Err ContractViolation
  ∧ t8_cmesh_get_local_num_trees cmesh = Err ContractViolation
  ∧ (∀ tree_id, t8_cmesh_get_tree_class cmesh tree_id = Err ContractViolation)
  ∧ t8_cmesh_get_mpicomm cmesh =
      (if bool_decide (0 < refcount (rc cmesh)
                       ∧ mpicomm cmesh ≠ sc_MPI_COMM_NULL)
       then Ok (mpicomm cmesh, do_dup cmesh)
       else Err ContractViolation).
Proof.
  intros Hc. apply truthy_false in Hc.
  unfold t8_cmesh_get_num_trees, t8_cmesh_get_local_num_trees,
    t8_cmesh_get_tree_class, t8_cmesh_get_mpicomm.
  rewrite Hc. repeat split.
  destruct (Z.ltb_spec 0 (refcount (rc cmesh))) as [Hr|Hr]; simpl.
  - destruct (decide (mpicomm cmesh ≠ sc_MPI_COMM_NULL)) as [Hm|Hm].
    + rewrite (bool_decide_eq_true_2 _ Hm). simpl.
      rewrite bool_decide_eq_true_2; done.
    + rewrite (bool_decide_eq_false_2 _ Hm). simpl.
      rewrite bool_decide_eq_false_2; [done|]. tauto.
  - rewrite bool_decide_eq_false_2; [done|]. lia.
Qed.

Lemma queries_before_commit_witness :
  committed t8_cmesh_init = 0
  ∧ t8_cmesh_get_num_trees t8_cmesh_init = Err ContractViolation
  ∧ t8_cmesh_get_local_num_trees t8_cmesh_init = Err ContractViolation
  ∧ t8_cmesh_get_tree_class t8_cmesh_init 0 = Err ContractViolation
  ∧ t8_cmesh_get_mpicomm t8_cmesh_init = Ok (sc_MPI_COMM_WORLD, 0).
Proof.
  split; [reflexivity|].
  destruct (queries_before_commit t8_cmesh_init) as (H1 & H2 & H3 & H4);
    [reflexivity|].
  split; [exact H1|]. split; [exact H2|]. split; [exact (H3 0)|].
  rewrite H4. reflexivity.
Defined.

(** ** Reference counting and teardown *)

Lemma teardown_of_with_rc (cmesh : t8_cmesh) (r : t8_refcount_t) :
  teardown_of (cmesh_with_rc cmesh r) = teardown_of cmesh.
Proof. reflexivity. Qed.

Lemma cmesh_with_rc_twice (cmesh : t8_cmesh) (r1 r2 : t8_refcount_t) :
  cmesh_with_rc (cmesh_with_rc cmesh r1) r2 = cmesh_with_rc cmesh r2.
Proof. reflexivity. Qed.







(** ** Uniform partition bounds *)

Lemma pow2_pos (s : Z) : 0 <= s → 0 < 2 ^ s.
Proof. intros. apply Z.pow_pos_nonneg; lia. Qed.

Lemma gloidx_ok (z : Z) : 0 <= z <= T8_GLOIDX_MAX → gloidx z = Ok z.
Proof.
  intros Hz. unfold gloidx, gloidx_fits.
  destruct (Z.leb_spec (- 2 ^ 63) z), (Z.leb_spec z T8_GLOIDX_MAX);
    try reflexivity; unfold T8_GLOIDX_MAX in *; lia.
Qed.

Lemma gloidx_too_large (z : Z) :
  T8_GLOIDX_MAX < z → gloidx z = Err UndefinedBehavior.
Proof.
  intros Hz. unfold gloidx, gloidx_fits.
  destruct (Z.leb_spec z T8_GLOIDX_MAX); [lia|].
  rewrite andb_false_r. reflexivity.
Qed.

(** Without overflow the mesh has [2 ^ (dimension * level)] children per
    tree and [num_trees] times as many in all. *)
Lemma children_representable (cmesh : t8_cmesh) (level : Z) :
  0 <= dimension cmesh → 0 <= level → 0 < num_trees cmesh →
  num_trees cmesh * 2 ^ (dimension cmesh * level) <= T8_GLOIDX_MAX →
  children_per_tree cmesh level = Ok (2 ^ (dimension cmesh * level))
  ∧ gloidx_mul (num_trees cmesh) (2 ^ (dimension cmesh * level))
    = Ok (num_trees cmesh * 2 ^ (dimension cmesh * level)).
Proof.
  intros Hd Hl Hn Hfit.
  assert (Hs : 0 <= dimension cmesh * level) by lia.
  pose proof (pow2_pos _ Hs) as Hpos.
  assert (Hle : 2 ^ (dimension cmesh * level) <= T8_GLOIDX_MAX) by nia.
  assert (Hlt : dimension cmesh * level < 63).
  { destruct (Z.lt_ge_cases (dimension cmesh * level) 63) as [|Hge]; [done|].
    pose proof (Z.pow_le_mono_r 2 63 (dimension cmesh * level)) as Hm.
    unfold T8_GLOIDX_MAX in Hle. lia. }
  split.
  - unfold children_per_tree, gloidx_shl.
    destruct (Z.leb_spec 0 (dimension cmesh * level)); [|lia].
    destruct (Z.ltb_spec (dimension cmesh * level) 64); [|lia].
    simpl. rewrite Z.shiftl_1_l. apply gloidx_ok. lia.
  - unfold gloidx_mul. apply gloidx_ok. nia.
Qed.

Section Shares.

Variable share : Z -> Z -> Z -> Z.

Lemma first_global_child_range (cmesh : t8_cmesh) (G : Z) :
  0 <= G → 0 <= mpirank cmesh < mpisize cmesh →
  share_in_range share G (mpisize cmesh) →
  0 <= first_global_child share cmesh G <= G.
Proof.
  intros HG Hr Hs. unfold first_global_child.
  destruct (Z.eqb_spec (mpirank cmesh) 0); [lia|]. apply Hs. lia.
Qed.

Lemma last_global_child_range (cmesh : t8_cmesh) (G : Z) :
  0 <= G → 0 <= mpirank cmesh < mpisize cmesh →
  share_in_range share G (mpisize cmesh) →
  0 <= last_global_child share cmesh G <= G.
Proof.
  intros HG Hr Hs. unfold last_global_child.
  destruct (Z.eqb_spec (mpirank cmesh) (mpisize cmesh - 1)); simpl; [lia|].
  apply Hs. lia.
Qed.

(** The body of [t8_cmesh_uniform_bounds] once the pyramid test, the
    overflow checks and the assertions are passed. *)
Lemma uniform_bounds_returns (cmesh : t8_cmesh) (level : Z) :
  0 <= dimension cmesh → 0 <= level → 0 < num_trees cmesh →
  0 <= mpirank cmesh < mpisize cmesh →
  num_trees_per_eclass cmesh T8_ECLASS_PYRAMID = 0 →
  num_trees cmesh * 2 ^ (dimension cmesh * level) <= T8_GLOIDX_MAX →
  share_in_range share (num_trees cmesh * 2 ^ (dimension cmesh * level))
                 (mpisize cmesh) →
  let c := 2 ^ (dimension cmesh * level) in
  let G := num_trees cmesh * c in
  let first_child := first_global_child share cmesh G in
  let last_child := last_global_child share cmesh G in
  let last_local_tree :=
    if first_child <? last_child then (last_child - 1) / c
    else first_child / c in
  t8_cmesh_uniform_bounds share cmesh level
  = Ok (first_child / c,
        first_child - first_child / c * c,
        last_local_tree,
        if 0 <? last_local_tree then last_child - last_local_tree * c
        else last_child).
Proof.
  intros Hd Hl Hn Hr Hpyr Hfit Hs c G first_child last_child last_local_tree.
  destruct (children_representable cmesh level Hd Hl Hn Hfit) as [Hc HG].
  assert (Hcpos : 0 < c) by (apply pow2_pos; lia).
  assert (HGpos : 0 <= G) by (unfold G; nia).
  pose proof (first_global_child_range cmesh G HGpos Hr Hs) as Hf.
  pose proof (last_global_child_range cmesh G HGpos Hr Hs) as Hla.
  unfold t8_cmesh_uniform_bounds. rewrite Hpyr, Hc.
  change (0 =? 0) with true. cbv beta iota delta [mbind res_bind].
  rewrite HG. cbv beta iota. fold c G first_child last_child.
  assert (Hb1 : (0 <=? first_child) && (first_child <=? G) = true)
    by (apply andb_true_iff; split; apply Z.leb_le; lia).
  assert (Hb2 : (0 <=? last_child) && (last_child <=? G) = true)
    by (apply andb_true_iff; split; apply Z.leb_le; lia).
  rewrite Hb1, Hb2. cbv beta iota delta [T8_ASSERT].
  rewrite (Z.quot_div_nonneg first_child c) by lia.
  unfold last_local_tree.
  destruct (Z.ltb_spec first_child last_child).
  - rewrite (Z.quot_div_nonneg (last_child - 1) c) by lia. reflexivity.
  - reflexivity.
Qed.

End Shares.

Lemma exact_share_in_range (G P : Z) :
  0 <= G → share_in_range exact_share G P.
Proof.
  intros HG k Hk. unfold exact_share. split.
  - apply Z.div_pos; nia.
  - transitivity (G * P / P).
    + apply Z.div_le_mono; nia.
    + rewrite Z.div_mul by lia. lia.
Qed.


Lemma count_eclass_zero (c : t8_eclass_t) (l : list t8_ctree) :
  count_eclass c l = 0 ↔ ¬ ∃ t, t ∈ l ∧ eclass t = c.
Proof.
  unfold count_eclass. split.
  - intros Hz (t & Hin & Hc).
    assert (Hnil : filter (fun t => eclass t = c) l = [])
      by (apply nil_length_inv; lia).
    by apply (filter_nil_not_elem_of _ _ t Hnil).
  - intros Hno.
    destruct (filter (fun t => eclass t = c) l) as [|t l'] eqn:Hf; [done|].
    exfalso. apply Hno. exists t.
    assert (Hin : t ∈ filter (fun t => eclass t = c) l)
      by (rewrite Hf; left).
    apply list_elem_of_filter in Hin. tauto.
Qed.

Lemma committed_no_eclass (cmesh : t8_cmesh) (c : t8_eclass_t) :
  cmesh_is_committed cmesh →
  num_trees_per_eclass cmesh c = 0 ↔ ¬ cmesh_has_eclass cmesh c.
Proof.
  intros Hcm. rewrite (committed_classes _ Hcm c). apply count_eclass_zero.
Qed.


Lemma cmesh_at_rank_committed (cmesh : t8_cmesh) (r : Z) :
  cmesh_is_committed cmesh → 0 <= r < mpisize cmesh →
  cmesh_is_committed (cmesh_at_rank cmesh r).
Proof.
  intros [Hf Hn Hr Hd Hc] Hrr. split; simpl; try done.
Qed.

(** Claim C1, amended: for a committed mesh without pyramid trees, a level
    [L >= 0] whose number of global children [G = num_trees * 2^(dimension*L)]
    fits the 64-bit signed [t8_gloidx_t], and shares that pass the assertions
    of the function (they lie in [0, G]), [uniform_bounds] returns the four
    outputs derived from [first_child, last_child) and
    [C = 2^(dimension*L)] by the stated formulas; on an empty rank the two
    trees agree and the two in-tree offsets agree. *)
Theorem uniform_bounds_offsets (share : Z -> Z -> Z -> Z) (cmesh : t8_cmesh)
    (level : Z) :
  cmesh_is_committed cmesh →
  ¬ cmesh_has_eclass cmesh T8_ECLASS_PYRAMID →
  0 <= level →
  num_trees cmesh * 2 ^ (dimension cmesh * level) <= T8_GLOIDX_MAX →
  share_in_range share (num_trees cmesh * 2 ^ (dimension cmesh * level))
                 (mpisize cmesh) →
  let C := 2 ^ (dimension cmesh * level) in
  let G := num_trees cmesh * C in
  let first_child := first_global_child share cmesh G in
  let last_child := last_global_child share cmesh G in
  ∃ first_local_tree child_in_tree_begin last_local_tree child_in_tree_end,
    t8_cmesh_uniform_bounds share cmesh level
    = Ok (first_local_tree, child_in_tree_begin,
          last_local_tree, child_in_tree_end)
    ∧ first_local_tree = first_child / C
    ∧ child_in_tree_begin = first_child - first_local_tree * C
    ∧ last_local_tree = (if first_child <? last_child
                         then (last_child - 1) / C else first_local_tree)
    ∧ child_in_tree_end = (if 0 <? last_local_tree
                           then last_child - last_local_tree * C
                           else last_child)
    ∧ (first_child = last_child →
       first_local_tree = last_local_tree
       ∧ child_in_tree_begin = child_in_tree_end).
Proof.
  intros Hcm Hpyr Hl Hfit Hs C G first_child last_child.
  pose proof Hcm as [_ Hn Hr Hd _].
  apply (committed_no_eclass _ _ Hcm) in Hpyr.
  eexists _, _, _, _. split.
  { apply uniform_bounds_returns; try done; lia. }
  fold C G first_child last_child.
  split; [done|]. split; [done|]. split; [done|]. split; [done|].
  intros Heq. rewrite Heq. rewrite Z.ltb_irrefl. split; [done|].
  assert (HC : 0 < C) by (apply pow2_pos; lia).
  assert (HG : 0 <= G) by (unfold G; nia).
  pose proof (last_global_child_range share cmesh G HG Hr Hs) as Hla.
  fold last_child in Hla.
  destruct (Z.ltb_spec 0 (last_child / C)) as [Hpos|Hnpos]; [done|].
  assert (Hq : 0 <= last_child / C) by (apply Z.div_pos; lia).
  replace (last_child / C) with 0 by lia. lia.
Qed.

(** Three triangles seen by rank 2 of 4. *)
Lemma mesh_triangles_committed : cmesh_is_committed mesh_triangles.
Proof. split; simpl; try lia. intros c. destruct c; reflexivity. Qed.

Lemma mesh_hex_committed : cmesh_is_committed mesh_hex.
Proof. split; simpl; try lia. intros c. destruct c; reflexivity. Qed.




Lemma uniform_bounds_offsets_witness :
  three_triangles = Ok mesh_triangles
  ∧ t8_cmesh_uniform_bounds exact_share mesh_triangles 2 = Ok (1, 8, 2, 4).
Proof.
  split; [vm_compute; reflexivity|].
  destruct (uniform_bounds_offsets exact_share mesh_triangles 2)
    as (flt & cib & llt & cie & Hret & Hflt & Hcib & Hllt & Hcie & _).
  - exact mesh_triangles_committed.
  - apply (committed_no_eclass _ _ mesh_triangles_committed). reflexivity.
  - lia.
  - vm_compute. discriminate.
  - apply exact_share_in_range. vm_compute. discriminate.
  - rewrite Hret. subst. reflexivity.
Defined.

(** Claim C1 fails where the children do not fit 64 bits: one hexahedron at
    level 21 has [2^63] children, one more than [t8_gloidx_t] holds, and
    the shift that computes them is undefined. *)
Lemma uniform_bounds_offsets_overflow :
  t8_cmesh_new_hex mpi_single sc_MPI_COMM_WORLD 0 = Ok mesh_hex
  ∧ cmesh_is_committed mesh_hex
  ∧ ¬ cmesh_has_eclass mesh_hex T8_ECLASS_PYRAMID
  ∧ T8_GLOIDX_MAX < 2 ^ (dimension mesh_hex * 21)
  ∧ ∀ share, t8_cmesh_uniform_bounds share mesh_hex 21 = Err UndefinedBehavior.
Proof.
  split; [vm_compute; reflexivity|]. split; [exact mesh_hex_committed|]. split.
  - apply (committed_no_eclass _ _ mesh_hex_committed). reflexivity.
  - split; [vm_compute; reflexivity|]. intros share. reflexivity.
Qed.

(** Intervals [[F r, L r)] for [0 <= r < P] that start at 0, end at [G],
    are well-formed and adjoin: they cover [[0, G)] and no point lies in two
    of them. *)
Section Chain.

Variables (F L : Z -> Z) (P G : Z).
Hypothesis chain_first : F 0 = 0.
Hypothesis chain_last : L (P - 1) = G.
Hypothesis chain_ordered : ∀ r, 0 <= r < P → F r <= L r.
Hypothesis chain_adjoin : ∀ r, 0 <= r → r + 1 < P → L r = F (r + 1).





End Chain.









(** ** Sequences of configuration calls *)

(** What every mesh that was built by calls of the configuration functions
    on the result of [t8_cmesh_init] satisfies. *)
Record cmesh_configured (cmesh : t8_cmesh) : Prop := {
  conf_refcount : refcount (rc cmesh) = 1;
  conf_committed : committed cmesh = 0 ∨ committed cmesh = 1;
  conf_comm :
    committed cmesh = 0 →
    mpicomm cmesh ≠ sc_MPI_COMM_NULL ∧ mpirank cmesh = -1 ∧ mpisize cmesh = -1;
  conf_num_trees : committed cmesh = 1 → 0 < num_trees cmesh;
  conf_replicated :
    set_partitioned cmesh = 0 →
    first_tree cmesh = 0 ∧ num_local_trees cmesh = num_trees cmesh
    ∧ num_ghosts cmesh = 0;
  conf_no_array :
    ctrees cmesh = None → num_local_trees cmesh = 0 ∧ dimension cmesh = -1;
  conf_array :
    ∀ a, ctrees cmesh = Some a → length a = Z.to_nat (num_local_trees cmesh);
  conf_slots :
    ∀ a i tree, ctrees cmesh = Some a → a !! i = Some (Some tree) →
      treeid tree = first_tree cmesh + Z.of_nat i
      ∧ t8_eclass_to_dimension (eclass tree) = dimension cmesh
      ∧ face_neighbors tree
        = replicate (Z.to_nat (t8_eclass_num_faces (eclass tree)))
                    invalid_fneighbor
      ∧ (set_partitioned cmesh ≠ 0 → i ≠ 0%nat);
  conf_counts : ∀ c, 0 <= num_trees_per_eclass cmesh c;
  conf_dimension :
    (dimension cmesh = -1 ∧ ∀ c, num_trees_per_eclass cmesh c = 0)
    ∨ (0 <= dimension cmesh <= 3 ∧ ∃ c, 0 < num_trees_per_eclass cmesh c);
  conf_offsets : tree_offsets cmesh = None;
}.

Lemma eclass_dimension_range (c : t8_eclass_t) :
  0 <= t8_eclass_to_dimension c <= 3.
Proof. destruct c; simpl; lia. Qed.

Lemma cmesh_init_configured : cmesh_configured t8_cmesh_init.
Proof.
  constructor; simpl; try done; try (by left); try (intros; lia).
Qed.

Lemma array_index_ok {A : Type} (a : list A) (index : Z) (x : A) :
  t8_sc_array_index_topidx (Some a) index = Ok x ↔
  0 <= index < Z.of_nat (length a) ∧ a !! Z.to_nat index = Some x.
Proof.
  unfold t8_sc_array_index_topidx, T8_ASSERT.
  cbv beta iota delta [mbind res_bind].
  destruct (Z.leb_spec 0 index); simpl;
    [destruct (Z.ltb_spec index (Z.of_nat (length a)))|]; simpl.
  - destruct (a !! Z.to_nat index) eqn:Hl; split.
    + intros [= ->]. done.
    + intros [_ [= ->]]. done.
    + discriminate.
    + intros [_ ?]. discriminate.
  - split; [discriminate|lia].
  - split; [discriminate|lia].
Qed.

Lemma set_mpicomm_configured (cmesh cmesh' : t8_cmesh) (comm : sc_MPI_Comm)
    (dup : Z) :
  cmesh_configured cmesh →
  t8_cmesh_set_mpicomm cmesh comm dup = Ok cmesh' → cmesh_configured cmesh'.
Proof.
  intros [] . unfold t8_cmesh_set_mpicomm, T8_ASSERT.
  cbv beta iota delta [mbind res_bind].
  destruct (0 <? _); [|discriminate].
  destruct (negb _); [|discriminate].
  destruct (bool_decide (mpicomm cmesh = _)); [|discriminate].
  case_bool_decide as Hcomm; [|discriminate].
  intros [= <-]. constructor; simpl; try done.
  intros Hc. split; [done|]. by apply conf_comm0.
Qed.

Lemma set_num_trees_configured (cmesh cmesh' : t8_cmesh) (n : Z) :
  cmesh_configured cmesh →
  t8_cmesh_set_num_trees cmesh n = Ok cmesh' → cmesh_configured cmesh'.
Proof.
  intros []. unfold t8_cmesh_set_num_trees, T8_ASSERT.
  cbv beta iota delta [mbind res_bind].
  destruct (negb _); [|discriminate].
  destruct (truthy (set_partitioned cmesh)) eqn:Hp.
  - apply truthy_true in Hp.
    destruct (0 <? _); [|discriminate].
    destruct (Z.eqb_spec (num_local_trees cmesh) 0) as [Hl|]; [|discriminate].
    intros [= <-]. constructor; simpl; try done.
    + intros a [= <-]. unfold sc_array_new_size. by rewrite length_replicate.
    + intros a i tree [= <-] Hi. unfold sc_array_new_size in Hi.
      apply lookup_replicate in Hi as [? _]. done.
  - apply truthy_false in Hp.
    destruct (Z.ltb_spec 0 n); [|discriminate].
    destruct (Z.eqb_spec (num_trees cmesh) 0) as [Hl|]; [|discriminate].
    intros [= <-]. constructor; simpl; try done.
    + intros _. destruct (conf_replicated0 Hp) as (? & ? & ?). done.
    + intros a [= <-]. unfold sc_array_new_size. by rewrite length_replicate.
    + intros a i tree [= <-] Hi. unfold sc_array_new_size in Hi.
      apply lookup_replicate in Hi as [? _]. done.
Qed.

Lemma set_partitioned_configured (cmesh cmesh' : t8_cmesh)
    (partitioned num_global_trees first_local_tree ghosts : Z) :
  cmesh_configured cmesh →
  t8_cmesh_set_partitioned cmesh partitioned num_global_trees
    first_local_tree ghosts = Ok cmesh' →
  cmesh_configured cmesh'.
Proof.
  intros Hconf. pose proof Hconf as [].
  unfold t8_cmesh_set_partitioned, T8_ASSERT.
  cbv beta iota delta [mbind res_bind].
  destruct (negb (truthy (committed cmesh))) eqn:Hc; [|discriminate].
  apply negb_true_iff, truthy_false in Hc.
  destruct (Z.eqb_spec (set_partitioned cmesh) 0) as [Hp|]; [|discriminate].
  destruct (Z.eqb_spec (num_trees cmesh) 0) as [Hn|]; [|discriminate].
  destruct (Z.eqb_spec (num_local_trees cmesh) 0) as [Hl|]; [|discriminate].
  destruct (Z.eqb_spec (first_tree cmesh) 0) as [Hf|]; [|discriminate].
  destruct (Z.eqb_spec partitioned 0) as [->|Hpart].
  - intros Hset. clear - Hconf Hp Hset. destruct cmesh. simpl in *. subst.
    exact (set_num_trees_configured _ _ _ Hconf Hset).
  - intros [= <-]. constructor; simpl; try done.
    + intros H1. lia.
    + intros a i tree Ha Hi. exfalso.
      pose proof (conf_array0 a Ha) as Hlen. rewrite Hl in Hlen.
      apply lookup_lt_Some in Hi. simpl in Hlen. lia.
Qed.

(** What a successful [t8_cmesh_set_tree] call says about its arguments
    and does to the mesh. *)
Lemma set_tree_effect (cmesh cmesh' : t8_cmesh) (tree_id : Z) (c : t8_eclass_t) :
  t8_cmesh_set_tree cmesh tree_id c = Ok cmesh' →
  committed cmesh = 0
  ∧ t8_cmesh_tree_id_is_valid cmesh tree_id = true
  ∧ (dimension cmesh = -1 ∨ dimension cmesh = t8_eclass_to_dimension c)
  ∧ ∃ a, ctrees cmesh = Some a
      ∧ 0 <= t8_cmesh_tree_index cmesh tree_id < Z.of_nat (length a)
      ∧ cmesh'
        = {| committed := committed cmesh;
             dimension := t8_eclass_to_dimension c;
             do_dup := do_dup cmesh; set_partitioned := set_partitioned cmesh;
             mpicomm := mpicomm cmesh; mpirank := mpirank cmesh;
             mpisize := mpisize cmesh; rc := rc cmesh;
             num_trees := num_trees cmesh;
             num_local_trees := num_local_trees cmesh;
             num_ghosts := num_ghosts cmesh;
             num_trees_per_eclass :=
               eclass_count_incr (num_trees_per_eclass cmesh) c;
             ctrees :=
               Some (<[Z.to_nat (t8_cmesh_tree_index cmesh tree_id) :=
                       Some {| treeid := tree_id; eclass := c;
                               face_neighbors :=
                                 replicate (Z.to_nat (t8_eclass_num_faces c))
                                           invalid_fneighbor |}]> a);
             first_tree := first_tree cmesh;
             tree_offsets := tree_offsets cmesh |}.
Proof.
  unfold t8_cmesh_set_tree, T8_ASSERT.
  cbv beta iota delta [mbind res_bind].
  destruct (truthy (committed cmesh)) eqn:Hc; [discriminate|].
  apply truthy_false in Hc. simpl.
  destruct (t8_cmesh_tree_id_is_valid cmesh tree_id); [|discriminate].
  destruct (ctrees cmesh) as [a|] eqn:Ha;
    [|by destruct (dimension cmesh =? -1);
         [|destruct (t8_eclass_to_dimension c =? dimension cmesh)]].
  destruct (Z.eqb_spec (dimension cmesh) (-1)) as [Hd|Hd].
  - destruct (t8_sc_array_index_topidx (Some a) _) as [x|] eqn:Hx;
      [|discriminate].
    apply array_index_ok in Hx as [Hi _].
    intros [= <-]. split; [done|]. split; [done|]. split; [by left|].
    exists a. split; [done|]. split; [done|]. reflexivity.
  - destruct (Z.eqb_spec (t8_eclass_to_dimension c) (dimension cmesh))
      as [He|He]; [|discriminate].
    destruct (t8_sc_array_index_topidx (Some a) _) as [x|] eqn:Hx;
      [|discriminate].
    apply array_index_ok in Hx as [Hi _].
    intros [= <-]. split; [done|]. split; [done|]. split; [by right|].
    exists a. split; [done|]. split; [done|]. by rewrite He.
Qed.

Lemma set_tree_configured (cmesh cmesh' : t8_cmesh) (tree_id : Z)
    (c : t8_eclass_t) :
  cmesh_configured cmesh →
  t8_cmesh_set_tree cmesh tree_id c = Ok cmesh' → cmesh_configured cmesh'.
Proof.
  intros [] Hset.
  destruct (set_tree_effect _ _ _ _ Hset)
    as (Hc & Hvalid & Hdim & a & Ha & Hindex & ->).
  pose proof (eclass_dimension_range c) as Hrange.
  constructor; simpl.
  - done.
  - done.
  - done.
  - done.
  - done.
  - discriminate.
  - intros a' [= <-]. rewrite length_insert. by apply conf_array0.
  - intros a' i tree [= <-] Hi.
    destruct (decide (i = Z.to_nat (t8_cmesh_tree_index cmesh tree_id)))
      as [->|Hne].
    + rewrite list_lookup_insert_eq in Hi by lia.
      injection Hi as <-. simpl. split; [|split; [done|split; [done|]]].
      * unfold t8_cmesh_tree_index in *.
        destruct (truthy (set_partitioned cmesh)) eqn:Hp; [lia|].
        apply truthy_false in Hp.
        destruct (conf_replicated0 Hp) as (Hf & _). lia.
      * intros Hp. unfold t8_cmesh_tree_index, t8_cmesh_tree_id_is_valid in *.
        rewrite (proj2 (truthy_true _) Hp) in *.
        apply andb_true_iff in Hvalid as [Hlo _]. apply Z.ltb_lt in Hlo. lia.
    + rewrite list_lookup_insert_ne in Hi by done.
      destruct (conf_slots0 a i tree Ha Hi) as (Hid & Hd & Hfn & Hpart).
      split; [done|]. split; [|done].
      destruct Hdim as [Hm|Hm]; [|congruence].
      pose proof (eclass_dimension_range (eclass tree)). lia.
  - intros c'. unfold eclass_count_incr. specialize (conf_counts0 c').
    case_decide; lia.
  - right. split; [done|]. exists c. unfold eclass_count_incr.
    rewrite decide_True by done. specialize (conf_counts0 c). lia.
  - done.
Qed.

Lemma commit_configured (mpi : mpi_env) (cmesh cmesh' : t8_cmesh) :
  cmesh_configured cmesh →
  t8_cmesh_commit mpi cmesh = Ok cmesh' → cmesh_configured cmesh'.
Proof.
  intros []. unfold t8_cmesh_commit, T8_ASSERT.
  cbv beta iota delta [mbind res_bind].
  case_bool_decide; [|discriminate].
  destruct (negb _); [|discriminate].
  destruct (Z.ltb_spec 0 (num_trees cmesh)); [|discriminate].
  intros [= <-]. constructor; simpl; try done.
  by right.
Qed.

Lemma cmesh_call_configured (mpi : mpi_env) (cmesh cmesh' : t8_cmesh)
    (call : cmesh_call) :
  cmesh_configured cmesh →
  cmesh_call_run mpi cmesh call = Ok cmesh' → cmesh_configured cmesh'.
Proof.
  intros Hconf. destruct call; simpl.
  - by apply set_mpicomm_configured.
  - by apply set_partitioned_configured.
  - by apply set_num_trees_configured.
  - by apply set_tree_configured.
  - by apply commit_configured.
Qed.

Lemma foldM_app {St A : Type} (f : St -> A -> res St) (l l' : list A) (s : St) :
  foldM f (l ++ l') s = (s' ← foldM f l s; foldM f l' s').
Proof.
  revert s. induction l as [|a l IH]; intros s; [done|].
  simpl. destruct (f s a); [apply IH|done].
Qed.

Lemma foldM_snoc_Ok {St A : Type} (f : St -> A -> res St) (l : list A)
    (a : A) (s s' : St) :
  foldM f (l ++ [a]) s = Ok s' ↔ ∃ s1, foldM f l s = Ok s1 ∧ f s1 a = Ok s'.
Proof.
  rewrite foldM_app. destruct (foldM f l s) as [s1|e]; simpl.
  - split.
    + intros H. exists s1. split; [done|]. by destruct (f s1 a).
    + intros (s2 & [= <-] & H). by rewrite H.
  - split; [discriminate|]. by intros (? & ? & _).
Qed.

Lemma cmesh_calls_from (mpi : mpi_env) (calls : list cmesh_call)
    (cmesh cmesh' : t8_cmesh) :
  cmesh_configured cmesh →
  foldM (cmesh_call_run mpi) calls cmesh = Ok cmesh' →
  cmesh_configured cmesh'.
Proof.
  revert cmesh. induction calls as [|call calls IH]; intros cmesh Hconf.
  - by intros [= <-].
  - simpl. destruct (cmesh_call_run mpi cmesh call) as [c1|] eqn:Hcall;
      [|discriminate].
    apply IH. by eapply cmesh_call_configured.
Qed.

(** The configuration functions keep a mesh well formed: whatever calls
    were made on the result of [t8_cmesh_init], if they all returned then
    the reference count is 1; rank and size are unset (-1) until the
    commit; a replicated mesh has [first_tree] 0 and as many local trees
    as trees; the tree array has one slot per local tree; every tree that
    was set carries its own global id (its slot index plus [first_tree]),
    the dimension of the mesh and one invalid neighbour per face of its
    class, and a partitioned mesh never has its first slot set; the
    dimension is unset exactly as long as no tree was counted; and
    [tree_offsets] is never allocated. *)
Theorem cmesh_calls_keep_configured (mpi : mpi_env) (calls : list cmesh_call)
    (cmesh : t8_cmesh) :
  cmesh_calls_run mpi calls = Ok cmesh → cmesh_configured cmesh.
Proof. apply cmesh_calls_from, cmesh_init_configured. Qed.

Lemma cmesh_calls_ind (mpi : mpi_env) (P : list cmesh_call -> t8_cmesh -> Prop) :
  P [] t8_cmesh_init →
  (∀ calls cmesh call cmesh',
     cmesh_calls_run mpi calls = Ok cmesh → cmesh_configured cmesh →
     P calls cmesh →
     cmesh_call_run mpi cmesh call = Ok cmesh' →
     P (calls ++ [call]) cmesh') →
  ∀ calls cmesh, cmesh_calls_run mpi calls = Ok cmesh → P calls cmesh.
Proof.
  intros Hinit Hstep calls.
  induction calls as [|call calls IH] using rev_ind; intros cmesh.
  - by intros [= <-].
  - unfold cmesh_calls_run. rewrite foldM_snoc_Ok.
    intros (c1 & Hrun & Hcall).
    apply (Hstep calls c1 call cmesh Hrun); [|by apply IH|done].
    exact (cmesh_calls_from mpi calls t8_cmesh_init c1
             cmesh_init_configured Hrun).
Qed.

Lemma calls_configuring_run :
  cmesh_calls_run mpi_single calls_configuring = Ok mesh_configuring.
Proof. vm_compute. reflexivity. Qed.

Lemma calls_committing_run :
  cmesh_calls_run mpi_single (calls_configuring ++ calls_committing)
  = Ok mesh_set_twice.
Proof. vm_compute. reflexivity. Qed.

Lemma cmesh_calls_keep_configured_witness :
  cmesh_calls_run mpi_single (calls_configuring ++ calls_committing)
  = Ok mesh_set_twice
  ∧ cmesh_configured mesh_set_twice.
Proof.
  split; [exact calls_committing_run|].
  exact (cmesh_calls_keep_configured mpi_single _ _ calls_committing_run).
Defined.

(** The fields that only [t8_cmesh_set_tree] writes. *)
Lemma cmesh_call_counts (mpi : mpi_env) (cmesh cmesh' : t8_cmesh)
    (call : cmesh_call) :
  cmesh_call_run mpi cmesh call = Ok cmesh' →
  (∀ c, num_trees_per_eclass cmesh' c
        = num_trees_per_eclass cmesh c
          + (if is_set_tree_of c call then 1 else 0))
  ∧ (dimension cmesh ≠ -1 → dimension cmesh' = dimension cmesh)
  ∧ (∀ id c, call = call_set_tree id c →
       dimension cmesh' = t8_eclass_to_dimension c)
  ∧ ((∀ id c, call ≠ call_set_tree id c) →
       dimension cmesh' = dimension cmesh).
Proof.
  destruct call as [comm dup|p N f g|n|id c|]; simpl.
  - unfold t8_cmesh_set_mpicomm, T8_ASSERT.
    cbv beta iota delta [mbind res_bind].
    repeat (match goal with |- context [if ?b then _ else _] =>
              destruct b; [|discriminate] end).
    intros [= <-]. simpl. repeat split; try done. intros; lia.
  - unfold t8_cmesh_set_partitioned, t8_cmesh_set_num_trees, T8_ASSERT.
    cbv beta iota delta [mbind res_bind]. simpl.
    repeat (match goal with |- context [if ?b then _ else _] =>
              destruct b; try discriminate end);
      intros [= <-]; simpl; repeat split; try done; intros; lia.
  - unfold t8_cmesh_set_num_trees, T8_ASSERT.
    cbv beta iota delta [mbind res_bind].
    repeat (match goal with |- context [if ?b then _ else _] =>
              destruct b; try discriminate end);
      intros [= <-]; simpl; repeat split; try done; intros; lia.
  - intros Hset.
    destruct (set_tree_effect _ _ _ _ Hset)
      as (Hc & Hvalid & Hdim & a & Ha & Hindex & ->).
    simpl. split; [|split; [|split]].
    + intros c'. unfold eclass_count_incr.
      destruct (decide (c' = c)) as [->|Hne].
      * by rewrite bool_decide_eq_true_2.
      * rewrite bool_decide_eq_false_2 by done. lia.
    + intros Hd. destruct Hdim; [done|congruence].
    + by intros id' c' [= _ ->].
    + intros Hno. by destruct (Hno id c).
  - unfold t8_cmesh_commit, T8_ASSERT.
    cbv beta iota delta [mbind res_bind].
    repeat (match goal with |- context [T8_ASSERT] => idtac
            | |- context [if ?b then _ else _] =>
              destruct b; [|discriminate] end).
    intros [= <-]. simpl. repeat split; try done. intros; lia.
Qed.

Lemma set_tree_calls_snoc (calls : list cmesh_call) (call : cmesh_call)
    (c : t8_eclass_t) :
  set_tree_calls (calls ++ [call]) c
  = set_tree_calls calls c + (if is_set_tree_of c call then 1 else 0).
Proof.
  unfold set_tree_calls. rewrite filter_app, length_app.
  rewrite filter_cons, filter_nil.
  destruct (is_set_tree_of c call).
  - rewrite decide_True by done. simpl. lia.
  - rewrite decide_False by done. simpl. lia.
Qed.

(** The per-class table counts the [t8_cmesh_set_tree] calls, not the trees:
    after any calls that all returned, the entry of a class is the number
    of [set_tree] calls made for that class (a tree that was set twice is
    counted twice), and every one of those calls was for a class of the
    dimension the mesh has: a mesh never holds trees of two dimensions. *)
Theorem cmesh_calls_count_set_trees (mpi : mpi_env) (calls : list cmesh_call)
    (cmesh : t8_cmesh) :
  cmesh_calls_run mpi calls = Ok cmesh →
  (∀ c, num_trees_per_eclass cmesh c = set_tree_calls calls c)
  ∧ (∀ id c, call_set_tree id c ∈ calls →
       t8_eclass_to_dimension c = dimension cmesh)
  ∧ (dimension cmesh = -1 ↔ ∀ id c, call_set_tree id c ∉ calls).
Proof.
  revert calls cmesh. apply cmesh_calls_ind.
  - split; [done|]. split; [by intros id c Hin%elem_of_nil|].
    split; [by intros _ id c Hin%elem_of_nil|done].
  - intros calls cmesh call cmesh' Hrun Hconf (Hcount & Hdim & Hnone) Hcall.
    destruct (cmesh_call_counts mpi _ _ _ Hcall) as (Hc' & Hkeep & Hset & Hother).
    split; [|split].
    + intros c. by rewrite Hc', Hcount, set_tree_calls_snoc.
    + intros id c [Hin|Hin%list_elem_of_singleton]%elem_of_app.
      * rewrite Hkeep; [by apply (Hdim id)|].
        rewrite <- (Hdim id c Hin).
        pose proof (eclass_dimension_range c). lia.
      * symmetry. by apply (Hset id).
    + split.
      * intros Hd id c [Hin|Hin%list_elem_of_singleton]%elem_of_app.
        -- pose proof (Hdim id c Hin) as Hd0.
           rewrite Hkeep in Hd
             by (rewrite <- Hd0; pose proof (eclass_dimension_range c); lia).
           pose proof (eclass_dimension_range c). lia.
        -- rewrite (Hset id c (eq_sym Hin)) in Hd.
           pose proof (eclass_dimension_range c). lia.
      * intros Hno. rewrite Hother.
        -- apply Hnone. intros id c Hin. apply (Hno id c).
           apply elem_of_app. by left.
        -- intros id c ->. apply (Hno id c). apply elem_of_app. right. by left.
Qed.

Lemma cmesh_calls_count_set_trees_witness :
  cmesh_calls_run mpi_single (calls_configuring ++ calls_committing)
  = Ok mesh_set_twice
  ∧ num_trees mesh_set_twice = 3
  ∧ num_trees_per_eclass mesh_set_twice T8_ECLASS_QUAD = 2
  ∧ num_trees_per_eclass mesh_set_twice T8_ECLASS_TRIANGLE = 1
  ∧ dimension mesh_set_twice = 2.
Proof.
  destruct (cmesh_calls_count_set_trees mpi_single _ _ calls_committing_run)
    as (Hcount & Hdim & _).
  split; [exact calls_committing_run|]. split; [reflexivity|].
  split; [exact (Hcount T8_ECLASS_QUAD)|].
  split; [exact (Hcount T8_ECLASS_TRIANGLE)|].
  symmetry. apply (Hdim 0 T8_ECLASS_QUAD). right. right. left.
Defined.

(** The class of the tree [id], if [id] is a valid id whose slot was set. *)
Definition tree_class_set (cmesh : t8_cmesh) (id : Z) : option t8_eclass_t :=
  if t8_cmesh_tree_id_is_valid cmesh id then
    match ctrees cmesh with
    | Some a =>
        match a !! Z.to_nat (t8_cmesh_tree_index cmesh id) with
        | Some (Some tree) => Some (eclass tree)
        | _ => None
        end
    | None => None
    end
  else None.

(** A valid id leads to a slot of the array. *)
Lemma valid_index_range (cmesh : t8_cmesh) (id : Z) :
  cmesh_configured cmesh →
  t8_cmesh_tree_id_is_valid cmesh id = true →
  ∃ a, ctrees cmesh = Some a
       ∧ 0 <= t8_cmesh_tree_index cmesh id < Z.of_nat (length a).
Proof.
  intros [] Hvalid.
  unfold t8_cmesh_tree_id_is_valid, t8_cmesh_tree_index in *.
  assert (Hidx : 0 <= (if truthy (set_partitioned cmesh)
                       then id - first_tree cmesh else id)
                 < num_local_trees cmesh).
  { destruct (truthy (set_partitioned cmesh)) eqn:Hp.
    - apply andb_true_iff in Hvalid as [Hlo Hhi].
      apply Z.ltb_lt in Hlo, Hhi. lia.
    - apply truthy_false in Hp. destruct (conf_replicated0 Hp) as (_ & Hl & _).
      apply andb_true_iff in Hvalid as [Hlo Hhi].
      apply Z.leb_le in Hlo. apply Z.ltb_lt in Hhi. lia. }
  destruct (ctrees cmesh) as [a|] eqn:Ha.
  - exists a. split; [done|]. rewrite (conf_array0 a eq_refl). lia.
  - destruct (conf_no_array0 eq_refl) as [Hl _]. lia.
Qed.

Lemma valid_index_inj (cmesh : t8_cmesh) (id id' : Z) :
  t8_cmesh_tree_id_is_valid cmesh id = true →
  t8_cmesh_tree_id_is_valid cmesh id' = true →
  Z.to_nat (t8_cmesh_tree_index cmesh id)
  = Z.to_nat (t8_cmesh_tree_index cmesh id') →
  id = id'.
Proof.
  unfold t8_cmesh_tree_id_is_valid, t8_cmesh_tree_index.
  destruct (truthy (set_partitioned cmesh));
    intros [H1 _]%andb_true_iff [H2 _]%andb_true_iff.
  - apply Z.ltb_lt in H1, H2. lia.
  - apply Z.leb_le in H1, H2. lia.
Qed.

Lemma get_tree_class_set (cmesh : t8_cmesh) (id : Z) :
  cmesh_configured cmesh → committed cmesh ≠ 0 →
  t8_cmesh_get_tree_class cmesh id
  = match tree_class_set cmesh id with
    | Some c => Ok c
    | None => if t8_cmesh_tree_id_is_valid cmesh id
              then Err UndefinedBehavior else Err ContractViolation
    end.
Proof.
  intros Hconf Hc. unfold t8_cmesh_get_tree_class, tree_class_set.
  rewrite (proj2 (truthy_true _) Hc). simpl.
  destruct (t8_cmesh_tree_id_is_valid cmesh id) eqn:Hvalid; [|done]. simpl.
  destruct (valid_index_range cmesh id Hconf Hvalid) as (a & Ha & Hidx).
  rewrite Ha.
  destruct (lookup_lt_is_Some_2 a (Z.to_nat (t8_cmesh_tree_index cmesh id)))
    as [slot Hslot]; [lia|].
  rewrite (proj2 (array_index_ok a _ slot)) by done.
  rewrite Hslot. simpl. by destruct slot.
Qed.

(** What a call does to the classes of the trees that are set. *)
Lemma cmesh_call_tree_class_set (mpi : mpi_env) (cmesh cmesh' : t8_cmesh)
    (call : cmesh_call) (id : Z) :
  cmesh_configured cmesh →
  cmesh_call_run mpi cmesh call = Ok cmesh' →
  tree_class_set cmesh' id
  = match call with
    | call_set_tree tree_id tree_class =>
        if decide (tree_id = id) then Some tree_class
        else tree_class_set cmesh id
    | _ => tree_class_set cmesh id
    end.
Proof.
  intros Hconf. pose proof Hconf as [].
  destruct call as [comm dup|p N f g|n|id0 c|]; simpl.
  - unfold t8_cmesh_set_mpicomm, T8_ASSERT.
    cbv beta iota delta [mbind res_bind].
    repeat (match goal with |- context [if ?b then _ else _] =>
              destruct b; [|discriminate] end).
    by intros [= <-].
  - unfold t8_cmesh_set_partitioned, T8_ASSERT.
    cbv beta iota delta [mbind res_bind].
    destruct (negb _); [|discriminate].
    destruct (Z.eqb_spec (set_partitioned cmesh) 0) as [Hp|]; [|discriminate].
    destruct (Z.eqb_spec (num_trees cmesh) 0) as [Hn|]; [|discriminate].
    destruct (Z.eqb_spec (num_local_trees cmesh) 0) as [Hl|]; [|discriminate].
    destruct (Z.eqb_spec (first_tree cmesh) 0) as [Hf|]; [|discriminate].
    assert (Hold : tree_class_set cmesh id = None).
    { unfold tree_class_set, t8_cmesh_tree_id_is_valid.
      rewrite (proj2 (truthy_false _) Hp), Hn.
      destruct (Z.leb_spec 0 id), (Z.ltb_spec id 0); simpl; (done || lia). }
    rewrite Hold.
    destruct (Z.eqb_spec p 0) as [->|Hpart].
    + unfold t8_cmesh_set_num_trees, T8_ASSERT.
      cbv beta iota delta [mbind res_bind]. simpl.
      destruct (negb _); [|discriminate].
      destruct (0 <? N); [|discriminate].
      destruct (num_trees cmesh =? 0); [|discriminate].
      intros [= <-]. unfold tree_class_set. simpl.
      destruct (t8_cmesh_tree_id_is_valid _ id); [|done].
      unfold sc_array_new_size.
      destruct (replicate _ _ !! _) as [slot|] eqn:Hs; [|done].
      by apply lookup_replicate in Hs as [-> _].
    + intros [= <-]. unfold tree_class_set, t8_cmesh_tree_id_is_valid. simpl.
      rewrite (proj2 (truthy_true _) Hpart), Hl.
      destruct (Z.ltb_spec f id), (Z.ltb_spec id (f + 0)); simpl; (done || lia).
  - unfold t8_cmesh_set_num_trees, T8_ASSERT.
    cbv beta iota delta [mbind res_bind].
    destruct (negb _); [|discriminate].
    assert (Hnew : ∀ (m : nat) (k : nat),
              match replicate m (@None t8_ctree) !! k with
              | Some (Some tree) => Some (eclass tree)
              | _ => None
              end = None).
    { intros m k. destruct (replicate m None !! k) as [slot|] eqn:Hs; [|done].
      by apply lookup_replicate in Hs as [-> _]. }
    destruct (truthy (set_partitioned cmesh)) eqn:Hp.
    + destruct (0 <? _); [|discriminate].
      destruct (Z.eqb_spec (num_local_trees cmesh) 0) as [Hl|]; [|discriminate].
      intros [= <-].
      assert (Hold : tree_class_set cmesh id = None).
      { unfold tree_class_set, t8_cmesh_tree_id_is_valid. rewrite Hp, Hl.
        destruct (Z.ltb_spec (first_tree cmesh) id),
          (Z.ltb_spec id (first_tree cmesh + 0)); simpl; (done || lia). }
      rewrite Hold. unfold tree_class_set. simpl.
      destruct (t8_cmesh_tree_id_is_valid _ id); [|done].
      apply Hnew.
    + destruct (0 <? n); [|discriminate].
      destruct (Z.eqb_spec (num_trees cmesh) 0) as [Hn|]; [|discriminate].
      intros [= <-].
      assert (Hold : tree_class_set cmesh id = None).
      { unfold tree_class_set, t8_cmesh_tree_id_is_valid. rewrite Hp, Hn.
        destruct (Z.leb_spec 0 id), (Z.ltb_spec id 0); simpl; (done || lia). }
      rewrite Hold. unfold tree_class_set. simpl.
      destruct (t8_cmesh_tree_id_is_valid _ id); [|done].
      apply Hnew.
  - intros Hset.
    destruct (set_tree_effect _ _ _ _ Hset)
      as (Hc & Hvalid & Hdim & a & Ha & Hindex & ->).
    unfold tree_class_set at 1. simpl.
    change (t8_cmesh_tree_id_is_valid _ id)
      with (t8_cmesh_tree_id_is_valid cmesh id).
    change (t8_cmesh_tree_index _ id) with (t8_cmesh_tree_index cmesh id).
    destruct (decide (id0 = id)) as [->|Hne].
    + rewrite Hvalid. rewrite list_lookup_insert_eq by lia. done.
    + unfold tree_class_set. rewrite Ha.
      destruct (t8_cmesh_tree_id_is_valid cmesh id) eqn:Hv; [|done].
      rewrite list_lookup_insert_ne; [done|].
      intros Heq. apply Hne. by apply (valid_index_inj cmesh).
  - unfold t8_cmesh_commit, T8_ASSERT.
    cbv beta iota delta [mbind res_bind].
    case_bool_decide; [|discriminate].
    destruct (negb _); [|discriminate].
    destruct (0 <? _); [|discriminate].
    by intros [= <-].
Qed.

Lemma last_set_tree_snoc (calls : list cmesh_call) (call : cmesh_call)
    (id : Z) :
  last_set_tree (calls ++ [call]) id
  = match call with
    | call_set_tree tree_id tree_class =>
        if decide (tree_id = id) then Some tree_class
        else last_set_tree calls id
    | _ => last_set_tree calls id
    end.
Proof.
  unfold last_set_tree. rewrite omap_app.
  destruct call as [| | |id0 c|]; simpl; rewrite ?app_nil_r; try done.
  destruct (decide (id0 = id)); simpl; [by rewrite last_snoc|].
  by rewrite app_nil_r.
Qed.

(** Setting trees and reading them back: once the mesh is committed,
    [t8_cmesh_get_tree_class] returns the class that the last
    [t8_cmesh_set_tree] call for the id gave; for an id that no call set
    it fails, as a contract violation if the id is not valid and by reading
    a slot that was never written if it is. *)
Theorem cmesh_tree_class_round_trip (mpi : mpi_env) (calls : list cmesh_call)
    (cmesh : t8_cmesh) (id : Z) :
  cmesh_calls_run mpi calls = Ok cmesh →
  committed cmesh ≠ 0 →
  t8_cmesh_get_tree_class cmesh id
  = match last_set_tree calls id with
    | Some c => Ok c
    | None => if t8_cmesh_tree_id_is_valid cmesh id
              then Err UndefinedBehavior else Err ContractViolation
    end.
Proof.
  intros Hrun Hc.
  rewrite get_tree_class_set;
    [|exact (cmesh_calls_from mpi calls _ _ cmesh_init_configured Hrun)|done].
  replace (tree_class_set cmesh id) with (last_set_tree calls id); [done|].
  clear Hc. revert calls cmesh Hrun. apply cmesh_calls_ind.
  - unfold tree_class_set. simpl.
    by destruct (t8_cmesh_tree_id_is_valid t8_cmesh_init id).
  - intros calls cmesh call cmesh' Hrun Hconf IH Hcall.
    rewrite last_set_tree_snoc,
      (cmesh_call_tree_class_set mpi cmesh cmesh' call id Hconf Hcall), IH.
    done.
Qed.

Lemma cmesh_tree_class_round_trip_witness :
  cmesh_calls_run mpi_single (calls_configuring ++ calls_committing)
  = Ok mesh_set_twice
  ∧ committed mesh_set_twice ≠ 0
  ∧ t8_cmesh_get_tree_class mesh_set_twice 1 = Ok T8_ECLASS_QUAD
  ∧ t8_cmesh_get_tree_class mesh_set_twice 2 = Err UndefinedBehavior
  ∧ t8_cmesh_get_tree_class mesh_set_twice 3 = Err ContractViolation.
Proof.
  assert (Hc : committed mesh_set_twice ≠ 0) by done.
  split; [exact calls_committing_run|]. split; [exact Hc|].
  split; [|split].
  - exact (cmesh_tree_class_round_trip mpi_single _ _ 1
             calls_committing_run Hc).
  - exact (cmesh_tree_class_round_trip mpi_single _ _ 2
             calls_committing_run Hc).
  - exact (cmesh_tree_class_round_trip mpi_single _ _ 3
             calls_committing_run Hc).
Defined.

Lemma cmesh_call_committed (mpi : mpi_env) (cmesh cmesh' : t8_cmesh)
    (call : cmesh_call) :
  cmesh_call_run mpi cmesh call = Ok cmesh' →
  committed cmesh = 0
  ∧ committed cmesh' = (if decide (call = call_commit) then 1 else 0).
Proof.
  destruct call as [comm dup|p N f g|n|id c|]; simpl.
  - unfold t8_cmesh_set_mpicomm, T8_ASSERT.
    cbv beta iota delta [mbind res_bind].
    destruct (0 <? _); [|discriminate].
    destruct (truthy (committed cmesh)) eqn:Hc; [discriminate|].
    apply truthy_false in Hc. simpl.
    repeat (match goal with |- context [if ?b then _ else _] =>
              destruct b; [|discriminate] end).
    by intros [= <-].
  - unfold t8_cmesh_set_partitioned, t8_cmesh_set_num_trees, T8_ASSERT.
    cbv beta iota delta [mbind res_bind]. simpl.
    destruct (truthy (committed cmesh)) eqn:Hc; [discriminate|].
    apply truthy_false in Hc. simpl.
    repeat (match goal with |- context [if ?b then _ else _] =>
              destruct b; try discriminate end);
      by intros [= <-].
  - unfold t8_cmesh_set_num_trees, T8_ASSERT.
    cbv beta iota delta [mbind res_bind].
    destruct (truthy (committed cmesh)) eqn:Hc; [discriminate|].
    apply truthy_false in Hc. simpl.
    repeat (match goal with |- context [if ?b then _ else _] =>
              destruct b; try discriminate end);
      by intros [= <-].
  - intros Hset.
    destruct (set_tree_effect _ _ _ _ Hset) as (Hc & _ & _ & a & _ & _ & ->).
    done.
  - unfold t8_cmesh_commit, T8_ASSERT.
    cbv beta iota delta [mbind res_bind].
    case_bool_decide; [|discriminate].
    destruct (truthy (committed cmesh)) eqn:Hc; [discriminate|].
    apply truthy_false in Hc. simpl.
    destruct (0 <? _); [|discriminate].
    by intros [= <-].
Qed.

Lemma cmesh_call_after_commit (mpi : mpi_env) (cmesh : t8_cmesh)
    (call : cmesh_call) :
  committed cmesh ≠ 0 →
  cmesh_call_run mpi cmesh call = Err ContractViolation.
Proof.
  intros Hc. apply truthy_true in Hc.
  destruct call as [comm dup|p N f g|n|id c|]; simpl.
  - unfold t8_cmesh_set_mpicomm, T8_ASSERT.
    cbv beta iota delta [mbind res_bind].
    destruct (0 <? _); [|done]. by rewrite Hc.
  - unfold t8_cmesh_set_partitioned, T8_ASSERT.
    cbv beta iota delta [mbind res_bind]. by rewrite Hc.
  - unfold t8_cmesh_set_num_trees, T8_ASSERT.
    cbv beta iota delta [mbind res_bind]. by rewrite Hc.
  - unfold t8_cmesh_set_tree, T8_ASSERT.
    cbv beta iota delta [mbind res_bind]. by rewrite Hc.
  - unfold t8_cmesh_commit, T8_ASSERT.
    cbv beta iota delta [mbind res_bind].
    case_bool_decide; [|done]. by rewrite Hc.
Qed.

(** The commit closes the configuration: in calls that all returned,
    [t8_cmesh_commit] can only be the last one; the mesh is committed
    exactly when it was called; and on a committed mesh every
    configuration function, [t8_cmesh_commit] itself included, fails as a
    contract violation, while the number of trees can be read. *)
Theorem cmesh_commit_is_final (mpi : mpi_env) (calls : list cmesh_call)
    (cmesh : t8_cmesh) :
  cmesh_calls_run mpi calls = Ok cmesh →
  (call_commit ∈ calls ↔ committed cmesh ≠ 0)
  ∧ (∀ before after, calls = before ++ call_commit :: after → after = [])
  ∧ (call_commit ∈ calls →
     (∀ mpi' call, cmesh_call_run mpi' cmesh call = Err ContractViolation)
     ∧ t8_cmesh_get_num_trees cmesh = Ok (num_trees cmesh)
     ∧ 0 < num_trees cmesh
     ∧ mpirank cmesh = sc_MPI_Comm_rank mpi (mpicomm cmesh)
     ∧ mpisize cmesh = sc_MPI_Comm_size mpi (mpicomm cmesh)).
Proof.
  intros Hrun.
  assert (H : (call_commit ∈ calls ↔ committed cmesh ≠ 0)
              ∧ (∀ before after,
                   calls = before ++ call_commit :: after → after = [])
              ∧ (call_commit ∈ calls →
                 mpirank cmesh = sc_MPI_Comm_rank mpi (mpicomm cmesh)
                 ∧ mpisize cmesh = sc_MPI_Comm_size mpi (mpicomm cmesh))).
  { revert calls cmesh Hrun. apply cmesh_calls_ind.
    - split; [split; [by intros ?%elem_of_nil|done]|].
      split; [by intros [|] ? ?|by intros ?%elem_of_nil].
    - intros calls cmesh call cmesh' Hrun Hconf (Hiff & Hlast & _) Hcall.
      pose proof (cmesh_call_committed mpi _ _ _ Hcall) as [Hc Hc'].
      assert (Hnot : call_commit ∉ calls) by (rewrite Hiff; lia).
      split; [|split].
      + rewrite elem_of_app, list_elem_of_singleton, Hc'.
        case_decide as Hcall_eq.
        * split; [intros; lia|]. intros _. by right.
        * split; [|lia]. intros [?|?]; [done|]. by destruct Hcall_eq.
      + intros before after Heq.
        destruct after as [|x after _] using rev_ind; [done|].
        rewrite app_comm_cons, app_assoc in Heq.
        apply app_inj_tail in Heq as [Heq _]. exfalso. apply Hnot.
        rewrite Heq. apply elem_of_app. right. by left.
      + intros [Hin|Hin%list_elem_of_singleton]%elem_of_app; [done|].
        subst call. revert Hcall. simpl.
        unfold t8_cmesh_commit, T8_ASSERT.
        cbv beta iota delta [mbind res_bind].
        repeat (match goal with |- context [if ?b then _ else _] =>
                  destruct b; [|discriminate] end).
        by intros [= <-]. }
  destruct H as (Hiff & Hlast & Hcomm).
  split; [done|]. split; [done|]. intros Hin.
  pose proof (proj1 Hiff Hin) as Hc.
  pose proof (cmesh_calls_from mpi calls _ _ cmesh_init_configured Hrun) as [].
  split; [intros mpi' call; by apply cmesh_call_after_commit|].
  split; [unfold t8_cmesh_get_num_trees;
          by rewrite (proj2 (truthy_true _) Hc)|].
  split; [apply conf_num_trees0; lia|]. by apply Hcomm.
Qed.

Lemma cmesh_commit_is_final_witness :
  cmesh_calls_run mpi_single (calls_configuring ++ calls_committing)
  = Ok mesh_set_twice
  ∧ call_commit ∈ calls_configuring ++ calls_committing
  ∧ t8_cmesh_set_tree mesh_set_twice 2 T8_ECLASS_QUAD = Err ContractViolation
  ∧ t8_cmesh_commit mpi_single mesh_set_twice = Err ContractViolation
  ∧ t8_cmesh_get_num_trees mesh_set_twice = Ok 3.
Proof.
  destruct (cmesh_commit_is_final mpi_single _ _ calls_committing_run)
    as (Hiff & _ & Hafter).
  assert (Hin : call_commit ∈ calls_configuring ++ calls_committing)
    by (apply Hiff; done).
  destruct (Hafter Hin) as (Hfail & Hn & _).
  split; [exact calls_committing_run|]. split; [exact Hin|].
  split; [exact (Hfail mpi_single (call_set_tree 2 T8_ECLASS_QUAD))|].
  split; [exact (Hfail mpi_single call_commit)|exact Hn].
Defined.

Lemma set_tree_ok (cmesh : t8_cmesh) (id : Z) (c : t8_eclass_t) :
  cmesh_configured cmesh →
  committed cmesh = 0 →
  t8_cmesh_tree_id_is_valid cmesh id = true →
  dimension cmesh = -1 ∨ dimension cmesh = t8_eclass_to_dimension c →
  ∃ cmesh', t8_cmesh_set_tree cmesh id c = Ok cmesh'.
Proof.
  intros Hconf Hc Hvalid Hdim.
  destruct (valid_index_range cmesh id Hconf Hvalid) as (a & Ha & Hidx).
  destruct (lookup_lt_is_Some_2 a (Z.to_nat (t8_cmesh_tree_index cmesh id)))
    as [slot Hslot]; [lia|].
  unfold t8_cmesh_set_tree.
  rewrite (proj2 (truthy_false _) Hc), Hvalid, Ha.
  rewrite (proj2 (array_index_ok a _ slot)) by done.
  destruct Hdim as [Hd|Hd].
  - rewrite Hd. simpl. by eexists.
  - destruct (Z.eqb_spec (dimension cmesh) (-1)); [simpl; by eexists|].
    rewrite Hd, Z.eqb_refl. simpl. by eexists.
Qed.



(** The sizes a mesh has and those a later mesh has agree, as far as the
    former were set. *)
Definition sizes_kept (cmesh cmesh' : t8_cmesh) : Prop :=
  (num_trees cmesh ≠ 0 →
   num_trees cmesh' = num_trees cmesh
   ∧ set_partitioned cmesh' = set_partitioned cmesh
   ∧ first_tree cmesh' = first_tree cmesh
   ∧ num_ghosts cmesh' = num_ghosts cmesh)
  ∧ (num_local_trees cmesh ≠ 0 →
     num_local_trees cmesh' = num_local_trees cmesh
     ∧ length <$> ctrees cmesh' = length <$> ctrees cmesh)
  ∧ (dimension cmesh ≠ -1 → dimension cmesh' = dimension cmesh).

Lemma cmesh_call_sizes (mpi : mpi_env) (cmesh cmesh' : t8_cmesh)
    (call : cmesh_call) :
  cmesh_configured cmesh →
  cmesh_call_run mpi cmesh call = Ok cmesh' → sizes_kept cmesh cmesh'.
Proof.
  intros Hconf Hcall. pose proof Hconf as [].
  destruct (cmesh_call_counts mpi _ _ _ Hcall) as (_ & Hdim & _).
  unfold sizes_kept. split; [|split; [|done]]; revert Hcall;
    destruct call as [comm dup|p N f g|n|id c|]; simpl.
  - unfold t8_cmesh_set_mpicomm, T8_ASSERT.
    cbv beta iota delta [mbind res_bind].
    repeat (match goal with |- context [if ?b then _ else _] =>
              destruct b; [|discriminate] end).
    by intros [= <-].
  - unfold t8_cmesh_set_partitioned, T8_ASSERT.
    cbv beta iota delta [mbind res_bind].
    destruct (negb _); [|discriminate].
    destruct (set_partitioned cmesh =? 0); [|discriminate].
    destruct (Z.eqb_spec (num_trees cmesh) 0) as [Hn|]; [|discriminate].
    intros _ ?. done.
  - unfold t8_cmesh_set_num_trees, T8_ASSERT.
    cbv beta iota delta [mbind res_bind].
    destruct (negb _); [|discriminate].
    destruct (truthy (set_partitioned cmesh)).
    + destruct (0 <? _); [|discriminate].
      destruct (_ =? 0); [|discriminate]. by intros [= <-].
    + destruct (0 <? _); [|discriminate].
      destruct (Z.eqb_spec (num_trees cmesh) 0) as [Hn|]; [|discriminate].
      intros _ ?. done.
  - intros Hset.
    destruct (set_tree_effect _ _ _ _ Hset) as (_ & _ & _ & a & _ & _ & ->).
    done.
  - unfold t8_cmesh_commit, T8_ASSERT.
    cbv beta iota delta [mbind res_bind].
    repeat (match goal with |- context [if ?b then _ else _] =>
              destruct b; [|discriminate] end).
    by intros [= <-].
  - unfold t8_cmesh_set_mpicomm, T8_ASSERT.
    cbv beta iota delta [mbind res_bind].
    repeat (match goal with |- context [if ?b then _ else _] =>
              destruct b; [|discriminate] end).
    by intros [= <-].
  - unfold t8_cmesh_set_partitioned, T8_ASSERT.
    cbv beta iota delta [mbind res_bind].
    destruct (negb _); [|discriminate].
    destruct (set_partitioned cmesh =? 0); [|discriminate].
    destruct (num_trees cmesh =? 0); [|discriminate].
    destruct (Z.eqb_spec (num_local_trees cmesh) 0) as [Hl|]; [|discriminate].
    intros _ ?. done.
  - unfold t8_cmesh_set_num_trees, T8_ASSERT.
    cbv beta iota delta [mbind res_bind].
    destruct (negb _); [|discriminate].
    destruct (truthy (set_partitioned cmesh)) eqn:Hp.
    + destruct (0 <? _); [|discriminate].
      destruct (Z.eqb_spec (num_local_trees cmesh) 0) as [Hl|]; [|discriminate].
      intros _ ?. done.
    + apply truthy_false in Hp. destruct (conf_replicated0 Hp) as (_ & Hl & _).
      destruct (0 <? _); [|discriminate].
      destruct (Z.eqb_spec (num_trees cmesh) 0) as [Hn|]; [|discriminate].
      intros _ ?. lia.
  - intros Hset.
    destruct (set_tree_effect _ _ _ _ Hset) as (_ & _ & _ & a & Ha & _ & ->).
    simpl. intros _. split; [done|]. rewrite Ha. simpl.
    by rewrite length_insert.
  - unfold t8_cmesh_commit, T8_ASSERT.
    cbv beta iota delta [mbind res_bind].
    repeat (match goal with |- context [if ?b then _ else _] =>
              destruct b; [|discriminate] end).
    by intros [= <-].
Qed.

Lemma sizes_kept_trans (c1 c2 c3 : t8_cmesh) :
  sizes_kept c1 c2 → sizes_kept c2 c3 → sizes_kept c1 c3.
Proof.
  intros (Hn & Hl & Hd) (Hn' & Hl' & Hd'). split; [|split].
  - intros H. destruct (Hn H) as (E1 & E2 & E3 & E4).
    destruct Hn' as (F1 & F2 & F3 & F4); [congruence|].
    repeat split; congruence.
  - intros H. destruct (Hl H) as (E1 & E2).
    destruct Hl' as (F1 & F2); [congruence|]. split; congruence.
  - intros H. rewrite Hd', Hd; [done|done|]. by rewrite Hd.
Qed.

(** The sizes of a mesh are written once: as soon as the number of trees
    is not zero, no later call that returns changes it, nor the partition
    flag, the first tree or the number of ghosts; as soon as the number of
    local trees is not zero, no later call changes it or the length of the
    tree array; and the dimension, once set, stays. *)
Theorem cmesh_sizes_write_once (mpi : mpi_env) (calls more : list cmesh_call)
    (cmesh cmesh' : t8_cmesh) :
  cmesh_calls_run mpi calls = Ok cmesh →
  cmesh_calls_run mpi (calls ++ more) = Ok cmesh' →
  (num_trees cmesh ≠ 0 →
   num_trees cmesh' = num_trees cmesh
   ∧ set_partitioned cmesh' = set_partitioned cmesh
   ∧ first_tree cmesh' = first_tree cmesh
   ∧ num_ghosts cmesh' = num_ghosts cmesh)
  ∧ (num_local_trees cmesh ≠ 0 →
     num_local_trees cmesh' = num_local_trees cmesh
     ∧ length <$> ctrees cmesh' = length <$> ctrees cmesh)
  ∧ (dimension cmesh ≠ -1 → dimension cmesh' = dimension cmesh).
Proof.
  intros Hrun. unfold cmesh_calls_run in *. rewrite foldM_app, Hrun. simpl.
  pose proof (cmesh_calls_from mpi calls _ _ cmesh_init_configured Hrun)
    as Hconf.
  clear Hrun. change (foldM (cmesh_call_run mpi) more cmesh = Ok cmesh' →
                      sizes_kept cmesh cmesh').
  revert cmesh Hconf. induction more as [|call more IH]; intros cmesh Hconf.
  - intros [= <-]. by repeat split.
  - simpl. destruct (cmesh_call_run mpi cmesh call) as [c1|] eqn:Hcall;
      [|discriminate].
    intros Hfold. apply (sizes_kept_trans cmesh c1 cmesh').
    + by apply (cmesh_call_sizes mpi cmesh c1 call).
    + apply IH; [by eapply cmesh_call_configured|done].
Qed.

Lemma cmesh_sizes_write_once_witness :
  cmesh_calls_run mpi_single calls_configuring = Ok mesh_configuring
  ∧ cmesh_calls_run mpi_single (calls_configuring ++ calls_committing)
    = Ok mesh_set_twice
  ∧ num_trees mesh_set_twice = num_trees mesh_configuring
  ∧ num_local_trees mesh_set_twice = num_local_trees mesh_configuring
  ∧ dimension mesh_set_twice = dimension mesh_configuring.
Proof.
  destruct (cmesh_sizes_write_once mpi_single _ _ _ _ calls_configuring_run
              calls_committing_run) as (Hn & Hl & Hd).
  split; [exact calls_configuring_run|].
  split; [exact calls_committing_run|].
  split; [by apply Hn|]. split; [by apply Hl|by apply Hd].
Defined.

(** ** The ready-made meshes *)

Lemma foldM_fmap {St A B : Type} (f : St -> B -> res St) (g : A -> B)
    (l : list A) (s : St) :
  foldM f (g <$> l) s = foldM (fun s a => f s (g a)) l s.
Proof.
  revert s. induction l as [|a l IH]; intros s; [done|].
  simpl. destruct (f s (g a)); [apply IH|done].
Qed.

Lemma foldM_seqZ_steps {St : Type} (f : St -> Z -> res St)
    (I : Z -> St -> Prop) (n : nat) (s : St) :
  (∀ i s, 0 <= i < Z.of_nat n → I i s → ∃ s', f s i = Ok s' ∧ I (i + 1) s') →
  I 0 s →
  ∃ s', foldM f (seqZ 0 (Z.of_nat n)) s = Ok s' ∧ I (Z.of_nat n) s'.
Proof.
  induction n as [|n IH]; intros Hstep Hs.
  - exists s. by rewrite seqZ_nil.
  - destruct IH as (s1 & Hfold & Hs1); [|done|].
    { intros i s0 Hi. apply Hstep. lia. }
    destruct (Hstep (Z.of_nat n) s1 ltac:(lia) Hs1) as (s' & Hf & Hs').
    exists s'. rewrite seqZ_S, foldM_snoc_Ok. split.
    + exists s1. split; [done|]. by rewrite Z.add_0_l.
    + by replace (Z.of_nat (S n)) with (Z.of_nat n + 1) by lia.
Qed.

(** A tree array whose slots are all set to trees of one class. *)
Lemma count_eclass_all_set (a : list (option t8_ctree)) (c c' : t8_eclass_t) :
  (∀ i slot, a !! i = Some slot → ∃ t, slot = Some t ∧ eclass t = c) →
  count_eclass c' (omap id a)
  = if decide (c' = c) then Z.of_nat (length a) else 0.
Proof.
  unfold count_eclass. induction a as [|slot a IH]; intros Hall.
  - simpl. by case_decide.
  - destruct (Hall 0%nat slot eq_refl) as (t & -> & Ht).
    simpl. rewrite filter_cons, Ht.
    specialize (IH (fun i s Hi => Hall (S i) s Hi)). revert IH.
    destruct (decide (c' = c)) as [->|Hne]; intros IH.
    + rewrite decide_True by done. simpl.
      rewrite !Nat2Z.inj_succ. f_equal. exact IH.
    + rewrite decide_False by congruence. exact IH.
Qed.

Section NewWith.

Variable mpi : mpi_env.
Variables (comm : sc_MPI_Comm) (dup : Z) (n : nat) (c : t8_eclass_t).
Hypothesis Hcomm : comm ≠ sc_MPI_COMM_NULL.
Hypothesis Hn : (0 < n)%nat.

(** The mesh after the trees [0 .. k-1] were set to the class [c]. *)
Definition trees_set_upto (k : Z) (cmesh : t8_cmesh) : Prop :=
  cmesh_configured cmesh
  ∧ committed cmesh = 0 ∧ set_partitioned cmesh = 0
  ∧ num_trees cmesh = Z.of_nat n
  ∧ mpicomm cmesh = comm ∧ do_dup cmesh = dup
  ∧ (∀ c', num_trees_per_eclass cmesh c' = if decide (c' = c) then k else 0)
  ∧ dimension cmesh = (if k =? 0 then -1 else t8_eclass_to_dimension c)
  ∧ ∀ id, tree_class_set cmesh id
          = if (0 <=? id) && (id <? k) then Some c else None.

Lemma new_with_configured :
  ∃ cmesh,
    (cmesh ← t8_cmesh_set_mpicomm t8_cmesh_init comm dup;
     t8_cmesh_set_num_trees cmesh (Z.of_nat n)) = Ok cmesh
    ∧ trees_set_upto 0 cmesh.
Proof.
  destruct (t8_cmesh_set_mpicomm t8_cmesh_init comm dup) as [m1|] eqn:H1;
    [|revert H1; unfold t8_cmesh_set_mpicomm; simpl;
      by rewrite (bool_decide_eq_true_2 _ Hcomm)].
  pose proof (set_mpicomm_configured _ _ _ _ cmesh_init_configured H1) as Hc1.
  revert H1. unfold t8_cmesh_set_mpicomm. simpl.
  rewrite (bool_decide_eq_true_2 _ Hcomm). simpl. intros [= <-]. simpl.
  unfold t8_cmesh_set_num_trees. simpl.
  destruct (Z.ltb_spec 0 (Z.of_nat n)); [|lia]. simpl.
  eexists. split; [reflexivity|].
  split.
  { apply (set_num_trees_configured _ _ (Z.of_nat n) Hc1).
    unfold t8_cmesh_set_num_trees. simpl.
    destruct (Z.ltb_spec 0 (Z.of_nat n)); [|lia]. reflexivity. }
  simpl. repeat (split; [done|]). split; [intros c'; by case_decide|].
  split; [done|]. intros id. unfold tree_class_set. simpl.
  destruct (t8_cmesh_tree_id_is_valid _ id);
    destruct ((0 <=? id) && (id <? 0)) eqn:Hid; try done.
  - apply andb_true_iff in Hid as [H1 H2].
    apply Z.leb_le in H1. apply Z.ltb_lt in H2. lia.
  - unfold sc_array_new_size.
    destruct (replicate _ _ !! _) as [slot|] eqn:Hs; [|done].
    by apply lookup_replicate in Hs as [-> _].
  - apply andb_true_iff in Hid as [H1 H2].
    apply Z.leb_le in H1. apply Z.ltb_lt in H2. lia.
Qed.

Lemma new_with_set_tree (k : Z) (cmesh : t8_cmesh) :
  0 <= k < Z.of_nat n → trees_set_upto k cmesh →
  ∃ cmesh', t8_cmesh_set_tree cmesh k c = Ok cmesh'
            ∧ trees_set_upto (k + 1) cmesh'.
Proof.
  intros Hk (Hconf & Hc & Hp & Hnum & Hcm & Hdup & Hcount & Hdim & Hset).
  assert (Hvalid : t8_cmesh_tree_id_is_valid cmesh k = true).
  { unfold t8_cmesh_tree_id_is_valid.
    rewrite (proj2 (truthy_false _) Hp), Hnum.
    apply andb_true_iff. split; [apply Z.leb_le|apply Z.ltb_lt]; lia. }
  destruct (set_tree_ok cmesh k c Hconf Hc Hvalid) as [cmesh' Hcall].
  { rewrite Hdim. destruct (k =? 0); [by left|by right]. }
  exists cmesh'. split; [done|].
  pose proof (cmesh_call_counts mpi cmesh cmesh' (call_set_tree k c) Hcall)
    as (Hcount' & _ & Hdim' & _).
  pose proof (cmesh_call_tree_class_set mpi cmesh cmesh' (call_set_tree k c)
                ) as Hset'.
  pose proof (cmesh_call_sizes mpi cmesh cmesh' (call_set_tree k c) Hconf Hcall)
    as (Hsizes & _).
  pose proof (cmesh_call_committed mpi cmesh cmesh' (call_set_tree k c) Hcall)
    as [_ Hc'].
  destruct (set_tree_effect _ _ _ _ Hcall) as (_ & _ & _ & a & _ & _ & Heq).
  split; [by eapply set_tree_configured|].
  split; [by rewrite Hc', decide_False|].
  split; [rewrite Heq; simpl; done|].
  split; [rewrite Heq; simpl; done|].
  split; [rewrite Heq; simpl; done|].
  split; [rewrite Heq; simpl; done|].
  split.
  { intros c'. rewrite Hcount', Hcount. simpl.
    destruct (decide (c' = c)) as [->|Hne].
    - by rewrite bool_decide_eq_true_2.
    - rewrite bool_decide_eq_false_2 by congruence. done. }
  split.
  { rewrite (Hdim' k c eq_refl).
    destruct (Z.eqb_spec (k + 1) 0); [lia|done]. }
  intros id. rewrite (Hset' id Hconf Hcall), Hset.
  destruct (decide (k = id)) as [->|Hne].
  - destruct (Z.leb_spec 0 id), (Z.ltb_spec id (id + 1)); simpl; (done || lia).
  - destruct (Z.leb_spec 0 id); simpl; [|done].
    destruct (Z.ltb_spec id k), (Z.ltb_spec id (k + 1)); (done || lia).
Qed.

Lemma new_with_returns :
  ∃ cmesh,
    t8_cmesh_new_with mpi comm dup (Z.of_nat n)
      ((fun i => (i, c)) <$> seqZ 0 (Z.of_nat n)) = Ok cmesh
    ∧ cmesh_configured cmesh
    ∧ committed cmesh = 1 ∧ set_partitioned cmesh = 0
    ∧ num_trees cmesh = Z.of_nat n
    ∧ mpicomm cmesh = (if truthy dup then sc_MPI_Comm_dup mpi comm else comm)
    ∧ mpirank cmesh = sc_MPI_Comm_rank mpi (mpicomm cmesh)
    ∧ mpisize cmesh = sc_MPI_Comm_size mpi (mpicomm cmesh)
    ∧ (∀ c', num_trees_per_eclass cmesh c'
             = if decide (c' = c) then Z.of_nat n else 0)
    ∧ dimension cmesh = t8_eclass_to_dimension c
    ∧ ∀ id, tree_class_set cmesh id
            = if (0 <=? id) && (id <? Z.of_nat n) then Some c else None.
Proof.
  unfold t8_cmesh_new_with.
  destruct new_with_configured as (m2 & H2 & Hm2).
  revert H2. cbv beta iota delta [mbind res_bind].
  destruct (t8_cmesh_set_mpicomm t8_cmesh_init comm dup) as [m1|];
    [|discriminate].
  intros ->. rewrite foldM_fmap. simpl.
  destruct (foldM_seqZ_steps (fun cm i => t8_cmesh_set_tree cm i c)
              trees_set_upto n m2) as (m3 & H3 & Hm3); [|done|].
  { intros i s Hi Hs. by apply new_with_set_tree. }
  rewrite H3.
  destruct Hm3 as (Hconf & Hc & Hp & Hnum & Hcm & Hdup & Hcount & Hdim & Hset).
  destruct (t8_cmesh_commit mpi m3) as [m4|] eqn:H4.
  - exists m4. split; [done|].
    pose proof (commit_configured mpi m3 m4 Hconf H4) as Hconf4.
    revert H4. unfold t8_cmesh_commit, T8_ASSERT.
    cbv beta iota delta [mbind res_bind].
    case_bool_decide; [|discriminate].
    destruct (negb _); [|discriminate].
    destruct (0 <? _); [|discriminate].
    intros H4. pose proof H4 as [= <-]. simpl.
    split; [done|]. repeat (split; [done|]).
    split; [by rewrite Hcm, Hdup|].
    split; [done|]. split; [done|].
    split; [done|].
    split; [rewrite Hdim; destruct (Z.eqb_spec (Z.of_nat n) 0); [lia|done]|].
    intros id. rewrite <- Hset. reflexivity.
  - exfalso. revert H4. unfold t8_cmesh_commit, T8_ASSERT.
    cbv beta iota delta [mbind res_bind].
    rewrite bool_decide_eq_true_2 by congruence.
    rewrite (proj2 (truthy_false _) Hc). simpl.
    rewrite Hnum. destruct (Z.ltb_spec 0 (Z.of_nat n)); [|lia]. discriminate.
Qed.

End NewWith.

(** The mesh of [n] trees of one class that the constructors build. *)
Definition uniform_mesh (mpi : mpi_env) (comm : sc_MPI_Comm) (dup : Z)
    (n : Z) (c : t8_eclass_t) (cmesh : t8_cmesh) : Prop :=
  committed cmesh = 1 ∧ set_partitioned cmesh = 0
  ∧ num_trees cmesh = n
  ∧ t8_cmesh_get_num_trees cmesh = Ok n
  ∧ t8_cmesh_get_local_num_trees cmesh = Ok n
  ∧ dimension cmesh = t8_eclass_to_dimension c
  ∧ (∀ id, t8_cmesh_get_tree_class cmesh id
           = if (0 <=? id) && (id <? n) then Ok c else Err ContractViolation)
  ∧ (∀ c', num_trees_per_eclass cmesh c' = if decide (c' = c) then n else 0)
  ∧ mpicomm cmesh = (if truthy dup then sc_MPI_Comm_dup mpi comm else comm)
  ∧ mpirank cmesh = sc_MPI_Comm_rank mpi (mpicomm cmesh)
  ∧ mpisize cmesh = sc_MPI_Comm_size mpi (mpicomm cmesh)
  ∧ (0 <= mpirank cmesh < mpisize cmesh → cmesh_is_committed cmesh).

Lemma new_with_mesh (mpi : mpi_env) (comm : sc_MPI_Comm) (dup : Z) (n : Z)
    (c : t8_eclass_t) :
  comm ≠ sc_MPI_COMM_NULL → 0 < n →
  ∃ cmesh,
    t8_cmesh_new_with mpi comm dup n ((fun i => (i, c)) <$> seqZ 0 n) = Ok cmesh
    ∧ uniform_mesh mpi comm dup n c cmesh.
Proof.
  intros Hcomm Hn.
  destruct (new_with_returns mpi comm dup (Z.to_nat n) c Hcomm ltac:(lia))
    as (m & Hnew & Hconf & Hc & Hp & Hnum & Hcm & Hrank & Hsize & Hcount
        & Hdim & Hset).
  rewrite Z2Nat.id in Hnew, Hnum, Hcount, Hset by lia.
  exists m. split; [done|].
  assert (Hvalid : ∀ id, t8_cmesh_tree_id_is_valid m id
                         = (0 <=? id) && (id <? n)).
  { intros id. unfold t8_cmesh_tree_id_is_valid.
    by rewrite (proj2 (truthy_false _) Hp), Hnum. }
  split; [done|]. split; [done|]. split; [done|].
  split; [unfold t8_cmesh_get_num_trees; rewrite Hc, Hnum; reflexivity|].
  split; [unfold t8_cmesh_get_local_num_trees;
          rewrite Hc, (proj2 (truthy_false _) Hp), Hnum; reflexivity|].
  split; [done|]. split.
  { intros id. rewrite get_tree_class_set by (done || lia).
    rewrite Hset, Hvalid. by destruct ((0 <=? id) && (id <? n)). }
  split; [done|]. split; [done|]. split; [done|]. split; [done|].
  intros Hr. split; [lia|lia|done| |].
  - rewrite Hdim. apply eclass_dimension_range.
  - intros c'. rewrite Hcount. unfold cmesh_trees.
    destruct (ctrees m) as [a|] eqn:Ha.
    + pose proof (conf_array m Hconf a Ha) as Hlen.
      pose proof (conf_replicated m Hconf Hp) as (Hf & Hl & _).
      rewrite (count_eclass_all_set a c c').
      * case_decide; [|done]. lia.
      * intros i slot Hi.
        pose proof (lookup_lt_Some _ _ _ Hi) as Hlt.
        pose proof (Hset (Z.of_nat i)) as Hs.
        unfold tree_class_set in Hs. rewrite Hvalid, Ha in Hs.
        unfold t8_cmesh_tree_index in Hs.
        rewrite (proj2 (truthy_false _) Hp), Nat2Z.id, Hi in Hs.
        destruct (Z.leb_spec 0 (Z.of_nat i)); [|lia].
        destruct (Z.ltb_spec (Z.of_nat i) n); [|lia]. simpl in Hs.
        destruct slot as [t|]; [|done]. exists t. split; [done|congruence].
    + destruct (conf_no_array m Hconf Ha) as [Hl _].
      pose proof (conf_replicated m Hconf Hp) as (_ & Hl' & _). lia.
Qed.

(** [t8_cmesh_new_hypercube] builds, for every class and every
    communicator that is not null, a committed, replicated mesh of the
    dimension of the class whose trees [0 .. n-1] ([n] from the table of
    the function: 1, 1, 1, 2, 1, 6, 2, 3) all have that class.  Reading
    the class of any other id is a contract violation; the per-class
    table counts [n] trees of the class and none of another; rank and
    size are those of the communicator, which is the duplicate exactly
    when [do_dup] is not zero.  If the rank lies inside the size, the mesh
    is a committed mesh in the sense of the uniform bounds. *)
Theorem new_hypercube_mesh (mpi : mpi_env) (c : t8_eclass_t)
    (comm : sc_MPI_Comm) (dup : Z) :
  comm ≠ sc_MPI_COMM_NULL →
  ∃ cmesh,
    t8_cmesh_new_hypercube mpi c comm dup = Ok cmesh
    ∧ 1 <= num_trees_for_hypercube c <= 6
    ∧ committed cmesh = 1 ∧ set_partitioned cmesh = 0
    ∧ num_trees cmesh = num_trees_for_hypercube c
    ∧ t8_cmesh_get_num_trees cmesh = Ok (num_trees_for_hypercube c)
    ∧ t8_cmesh_get_local_num_trees cmesh = Ok (num_trees_for_hypercube c)
    ∧ dimension cmesh = t8_eclass_to_dimension c
    ∧ (∀ id, t8_cmesh_get_tree_class cmesh id
             = if (0 <=? id) && (id <? num_trees_for_hypercube c)
               then Ok c else Err ContractViolation)
    ∧ (∀ c', num_trees_per_eclass cmesh c'
             = if decide (c' = c) then num_trees_for_hypercube c else 0)
    ∧ mpicomm cmesh = (if truthy dup then sc_MPI_Comm_dup mpi comm else comm)
    ∧ mpirank cmesh = sc_MPI_Comm_rank mpi (mpicomm cmesh)
    ∧ mpisize cmesh = sc_MPI_Comm_size mpi (mpicomm cmesh)
    ∧ (0 <= mpirank cmesh < mpisize cmesh → cmesh_is_committed cmesh).
Proof.
  intros Hcomm.
  assert (Hn : 1 <= num_trees_for_hypercube c <= 6) by (destruct c; simpl; lia).
  destruct (new_with_mesh mpi comm dup (num_trees_for_hypercube c) c Hcomm)
    as (cmesh & Hnew & Hmesh); [lia|].
  exists cmesh. split; [exact Hnew|]. split; [exact Hn|]. exact Hmesh.
Qed.

Lemma new_hypercube_mesh_witness :
  sc_MPI_COMM_WORLD ≠ sc_MPI_COMM_NULL
  ∧ ∃ cmesh,
      t8_cmesh_new_hypercube mpi_single T8_ECLASS_TET sc_MPI_COMM_WORLD 0
      = Ok cmesh
      ∧ t8_cmesh_get_num_trees cmesh = Ok 6
      ∧ dimension cmesh = 3
      ∧ t8_cmesh_get_tree_class cmesh 5 = Ok T8_ECLASS_TET
      ∧ t8_cmesh_get_tree_class cmesh 6 = Err ContractViolation
      ∧ num_trees_per_eclass cmesh T8_ECLASS_TET = 6.
Proof.
  assert (Hcomm : sc_MPI_COMM_WORLD ≠ sc_MPI_COMM_NULL) by done.
  split; [exact Hcomm|].
  destruct (new_hypercube_mesh mpi_single T8_ECLASS_TET sc_MPI_COMM_WORLD 0
              Hcomm)
    as (cmesh & Hnew & _ & _ & _ & _ & Hnum & _ & Hdim & Hclass & Hcount & _).
  exists cmesh. split; [exact Hnew|]. split; [exact Hnum|].
  split; [exact Hdim|]. split; [exact (Hclass 5)|].
  split; [exact (Hclass 6)|exact (Hcount T8_ECLASS_TET)].
Defined.

(** The four one-tree constructors: [t8_cmesh_new_tri], [t8_cmesh_new_tet],
    [t8_cmesh_new_quad] and [t8_cmesh_new_hex] each build, for a
    communicator that is not null, the committed, replicated mesh whose one
    tree, with the id 0, has the class of the constructor. *)
Theorem new_single_tree_meshes (mpi : mpi_env) (comm : sc_MPI_Comm) (dup : Z)
    (new : mpi_env -> sc_MPI_Comm -> Z -> res t8_cmesh) (c : t8_eclass_t) :
  comm ≠ sc_MPI_COMM_NULL →
  (new, c) ∈ [ (t8_cmesh_new_tri, T8_ECLASS_TRIANGLE);
               (t8_cmesh_new_tet, T8_ECLASS_TET);
               (t8_cmesh_new_quad, T8_ECLASS_QUAD);
               (t8_cmesh_new_hex, T8_ECLASS_HEX) ] →
  ∃ cmesh,
    new mpi comm dup = Ok cmesh
    ∧ committed cmesh = 1 ∧ set_partitioned cmesh = 0
    ∧ t8_cmesh_get_num_trees cmesh = Ok 1
    ∧ t8_cmesh_get_local_num_trees cmesh = Ok 1
    ∧ t8_cmesh_get_tree_class cmesh 0 = Ok c
    ∧ dimension cmesh = t8_eclass_to_dimension c
    ∧ (∀ c', num_trees_per_eclass cmesh c' = if decide (c' = c) then 1 else 0)
    ∧ (0 <= mpirank cmesh < mpisize cmesh → cmesh_is_committed cmesh).
Proof.
  intros Hcomm Hin.
  destruct (new_with_mesh mpi comm dup 1 c Hcomm ltac:(lia))
    as (cmesh & Hnew & Hc & Hp & Hnum & Hgn & Hgl & Hdim & Hclass & Hcount
        & _ & _ & _ & Hcm).
  exists cmesh. split.
  { rewrite <- Hnew.
    repeat (apply elem_of_cons in Hin as [[= -> ->]|Hin]; [reflexivity|]).
    by apply elem_of_nil in Hin. }
  do 4 (split; [done|]). split; [exact (Hclass 0)|].
  split; [done|]. split; [done|]. exact Hcm.
Qed.

Lemma new_single_tree_meshes_witness :
  sc_MPI_COMM_WORLD ≠ sc_MPI_COMM_NULL
  ∧ ∃ cmesh,
      t8_cmesh_new_tet mpi_single sc_MPI_COMM_WORLD 1 = Ok cmesh
      ∧ t8_cmesh_get_num_trees cmesh = Ok 1
      ∧ t8_cmesh_get_tree_class cmesh 0 = Ok T8_ECLASS_TET
      ∧ dimension cmesh = 3.
Proof.
  assert (Hcomm : sc_MPI_COMM_WORLD ≠ sc_MPI_COMM_NULL) by done.
  split; [exact Hcomm|].
  destruct (new_single_tree_meshes mpi_single sc_MPI_COMM_WORLD 1
              t8_cmesh_new_tet T8_ECLASS_TET Hcomm)
    as (cmesh & Hnew & _ & _ & Hnum & _ & Hclass & Hdim & _).
  - right. left.
  - exists cmesh. split; [exact Hnew|]. split; [exact Hnum|].
    split; [exact Hclass|exact Hdim].
Defined.

(** ** The four outputs of [t8_cmesh_uniform_bounds] *)

Section Bounds.

Variable share : Z -> Z -> Z -> Z.
Variable cmesh : t8_cmesh.
Variable level : Z.

Hypothesis Hcommitted : cmesh_is_committed cmesh.
Hypothesis Hpyramid : ¬ cmesh_has_eclass cmesh T8_ECLASS_PYRAMID.
Hypothesis Hlevel : 0 <= level.
Hypothesis Hfit :
  num_trees cmesh * 2 ^ (dimension cmesh * level) <= T8_GLOIDX_MAX.

Let C := 2 ^ (dimension cmesh * level).
Let G := num_trees cmesh * C.

Lemma bounds_children : 0 < C ∧ 0 < G.
Proof.
  pose proof Hcommitted as [_ Hn _ Hd _].
  assert (HC : 0 < C) by (apply pow2_pos; lia).
  split; [done|]. unfold G. nia.
Qed.

(** The outputs at rank [r], with their ranges. *)
Lemma bounds_at_rank (r : Z) :
  0 <= r < mpisize cmesh →
  share_in_range share G (mpisize cmesh) →
  let first_child := (rank_children share cmesh G r).1 in
  let last_child := (rank_children share cmesh G r).2 in
  ∃ first_local_tree child_in_tree_begin last_local_tree child_in_tree_end,
    t8_cmesh_uniform_bounds share (cmesh_at_rank cmesh r) level
    = Ok (first_local_tree, child_in_tree_begin,
          last_local_tree, child_in_tree_end)
    ∧ 0 <= first_child <= G ∧ 0 <= last_child <= G
    ∧ first_local_tree * C + child_in_tree_begin = first_child
    ∧ 0 <= child_in_tree_begin < C
    ∧ 0 <= first_local_tree <= last_local_tree
    ∧ first_local_tree <= num_trees cmesh
    ∧ (first_child < G → first_local_tree < num_trees cmesh)
    ∧ last_local_tree * C + child_in_tree_end = last_child
    ∧ (first_child < last_child →
       0 < child_in_tree_end <= C ∧ last_local_tree < num_trees cmesh)
    ∧ (last_child <= first_child → last_local_tree = first_local_tree).
Proof.
  intros Hr Hs first_child last_child.
  pose proof Hcommitted as [_ Hn _ Hd _].
  destruct bounds_children as [HC HG].
  pose proof (uniform_bounds_returns share (cmesh_at_rank cmesh r) level)
    as Hret.
  simpl in Hret. fold C G in Hret.
  change (first_global_child share (cmesh_at_rank cmesh r) G)
    with first_child in Hret.
  change (last_global_child share (cmesh_at_rank cmesh r) G)
    with last_child in Hret.
  rewrite Hret; try done; try lia;
    [|by apply (committed_no_eclass _ _ Hcommitted)].
  clear Hret.
  assert (Hf : 0 <= first_child <= G).
  { apply (first_global_child_range share (cmesh_at_rank cmesh r) G);
      simpl; (done || lia). }
  assert (Hl : 0 <= last_child <= G).
  { apply (last_global_child_range share (cmesh_at_rank cmesh r) G);
      simpl; (done || lia). }
  pose proof (Z.div_mod first_child C ltac:(lia)) as Hdm.
  pose proof (Z.mod_pos_bound first_child C HC) as Hmb.
  assert (Hq0 : 0 <= first_child / C) by (apply Z.div_pos; lia).
  assert (Hqn : first_child / C <= num_trees cmesh).
  { apply Z.div_le_upper_bound; [lia|]. unfold G in Hf. lia. }
  eexists _, _, _, _. split; [reflexivity|].
  split; [done|]. split; [done|]. split; [lia|]. split; [lia|].
  destruct (Z.ltb_spec first_child last_child) as [Hlt|Hge].
  - pose proof (Z.div_mod (last_child - 1) C ltac:(lia)) as Hdm'.
    pose proof (Z.mod_pos_bound (last_child - 1) C HC) as Hmb'.
    assert (Hle : first_child / C <= (last_child - 1) / C)
      by (apply Z.div_le_mono; lia).
    assert (Hln : (last_child - 1) / C < num_trees cmesh).
    { apply Z.div_lt_upper_bound; [lia|]. unfold G in Hl. lia. }
    split; [lia|]. split; [lia|]. split; [lia|].
    destruct (Z.ltb_spec 0 ((last_child - 1) / C)) as [Hpos|Hnpos].
    + split; [lia|]. split; [|lia]. intros _. split; [lia|done].
    + replace ((last_child - 1) / C) with 0 in * by lia.
      split; [lia|]. split; [|lia]. intros _. split; [lia|done].
  - split; [lia|]. split; [lia|]. split.
    { intros HfG. apply Z.div_lt_upper_bound; [lia|]. unfold G in HfG. lia. }
    split; [|split; [lia|done]].
    destruct (Z.ltb_spec 0 (first_child / C)); [lia|].
    replace (first_child / C) with 0 by lia. lia.
Qed.

End Bounds.

(** On a committed mesh without pyramid trees, at a level whose number of
    children fits [t8_gloidx_t], and with shares inside [0, G], the four
    outputs of [t8_cmesh_uniform_bounds] encode the two children the rank
    was given (tree times [C] plus offset) and are usable as indices: the
    first tree is not negative and not behind the last one, the first offset lies
    in [0, C), and on a rank that owns a child the last tree is a tree of
    the mesh and the end offset lies in (0, C].  The first tree is a tree of
    the mesh unless the rank starts at [G], where it is [num_trees]; a rank
    that owns no child gets the same tree twice. *)
Theorem uniform_bounds_output_ranges (share : Z -> Z -> Z -> Z)
    (cmesh : t8_cmesh) (level : Z) :
  cmesh_is_committed cmesh →
  ¬ cmesh_has_eclass cmesh T8_ECLASS_PYRAMID →
  0 <= level →
  num_trees cmesh * 2 ^ (dimension cmesh * level) <= T8_GLOIDX_MAX →
  share_in_range share (num_trees cmesh * 2 ^ (dimension cmesh * level))
                 (mpisize cmesh) →
  let C := 2 ^ (dimension cmesh * level) in
  let G := num_trees cmesh * C in
  let first_child := first_global_child share cmesh G in
  let last_child := last_global_child share cmesh G in
  ∃ first_local_tree child_in_tree_begin last_local_tree child_in_tree_end,
    t8_cmesh_uniform_bounds share cmesh level
    = Ok (first_local_tree, child_in_tree_begin,
          last_local_tree, child_in_tree_end)
    ∧ first_local_tree * C + child_in_tree_begin = first_child
    ∧ last_local_tree * C + child_in_tree_end = last_child
    ∧ 0 <= first_local_tree <= last_local_tree
    ∧ first_local_tree <= num_trees cmesh
    ∧ 0 <= child_in_tree_begin < C
    ∧ (first_child < G → first_local_tree < num_trees cmesh)
    ∧ (first_child = G →
       first_local_tree = num_trees cmesh ∧ child_in_tree_begin = 0)
    ∧ (first_child < last_child →
       last_local_tree < num_trees cmesh ∧ 0 < child_in_tree_end <= C)
    ∧ (last_child <= first_child → last_local_tree = first_local_tree).
Proof.
  intros Hcm Hpyr Hl Hfit Hs C G first_child last_child.
  pose proof (committed_rank _ Hcm) as Hr.
  destruct (bounds_at_rank share cmesh level Hcm Hpyr Hl Hfit
              (mpirank cmesh) Hr Hs)
    as (t1 & b & t2 & e & Hcall & Hf & Hla & Hsum & Hb & Ht & Htn & Hlt
        & Hend & Hne & Hempty).
  assert (Hsame : cmesh_at_rank cmesh (mpirank cmesh) = cmesh)
    by (by destruct cmesh).
  rewrite Hsame in Hcall.
  unfold rank_children in *. rewrite Hsame in *. simpl in *.
  fold C G in Hf, Hla, Hsum, Hb, Hlt, Hne, Hempty.
  fold first_child last_child in Hf, Hla, Hsum, Hb, Hlt, Hne, Hempty.
  fold C G first_child last_child in Hend.
  exists t1, b, t2, e. split; [exact Hcall|].
  split; [done|]. split; [done|].
  split; [done|]. split; [done|]. split; [done|]. split; [done|].
  split; [|split; [|done]].
  - intros HfG. unfold G in HfG.
    assert (Ht1 : t1 = num_trees cmesh) by nia.
    split; [done|]. subst t1. lia.
  - intros Hlt'. destruct (Hne Hlt') as (He & Ht2). done.
Qed.

Lemma uniform_bounds_output_ranges_witness :
  three_triangles = Ok mesh_triangles
  ∧ ∃ first_local_tree child_in_tree_begin last_local_tree child_in_tree_end,
      t8_cmesh_uniform_bounds exact_share mesh_triangles 2
      = Ok (first_local_tree, child_in_tree_begin,
            last_local_tree, child_in_tree_end)
      ∧ first_local_tree * 16 + child_in_tree_begin = 24
      ∧ last_local_tree * 16 + child_in_tree_end = 36
      ∧ 0 <= first_local_tree <= last_local_tree
      ∧ last_local_tree < 3
      ∧ 0 <= child_in_tree_begin < 16
      ∧ 0 < child_in_tree_end <= 16.
Proof.
  split; [vm_compute; reflexivity|].
  destruct (uniform_bounds_output_ranges exact_share mesh_triangles 2)
    as (t1 & b & t2 & e & Hret & Hfirst & Hlast & Ht & _ & Hb & _ & _ & Hne & _).
  - exact mesh_triangles_committed.
  - apply (committed_no_eclass _ _ mesh_triangles_committed). reflexivity.
  - lia.
  - vm_compute. discriminate.
  - apply exact_share_in_range. vm_compute. discriminate.
  - destruct Hne as [Ht2 He]; [vm_compute; reflexivity|].
    exists t1, b, t2, e. split; [exact Hret|]. split; [exact Hfirst|].
    split; [exact Hlast|]. split; [exact Ht|]. split; [exact Ht2|].
    split; [exact Hb|exact He].
Defined.

(** On one process [t8_cmesh_uniform_bounds] hands out the whole mesh,
    whatever the [long double] arithmetic of the platform does: the shares
    are not computed, the trees are [0 .. num_trees - 1], the first offset
    is 0 and the end offset is the number of children of a tree. *)
Theorem uniform_bounds_single_process (share : Z -> Z -> Z -> Z)
    (cmesh : t8_cmesh) (level : Z) :
  cmesh_is_committed cmesh →
  ¬ cmesh_has_eclass cmesh T8_ECLASS_PYRAMID →
  0 <= level →
  num_trees cmesh * 2 ^ (dimension cmesh * level) <= T8_GLOIDX_MAX →
  mpisize cmesh = 1 →
  t8_cmesh_uniform_bounds share cmesh level
  = Ok (0, 0, num_trees cmesh - 1, 2 ^ (dimension cmesh * level)).
Proof.
  intros Hcm Hpyr Hl Hfit Hone.
  pose proof Hcm as [_ Hn Hr Hd _].
  assert (Hrank : mpirank cmesh = 0) by lia.
  assert (HC : 0 < 2 ^ (dimension cmesh * level)) by (apply pow2_pos; lia).
  rewrite (uniform_bounds_returns share cmesh level); try done; try lia.
  - unfold first_global_child, last_global_child.
    rewrite Hrank, Hone. simpl.
    set (C := 2 ^ (dimension cmesh * level)) in *.
    rewrite Z.div_0_l by lia.
    destruct (Z.ltb_spec 0 (num_trees cmesh * C)); [|nia].
    assert (Hq : (num_trees cmesh * C - 1) / C = num_trees cmesh - 1).
    { symmetry. apply (Z.div_unique _ _ _ (C - 1)); lia. }
    rewrite Hq.
    destruct (Z.ltb_spec 0 (num_trees cmesh - 1)); do 3 f_equal; lia.
  - by apply (committed_no_eclass _ _ Hcm).
  - intros k Hk. lia.
Qed.

Lemma mesh_tets_committed : cmesh_is_committed mesh_tets.
Proof. split; simpl; try lia. intros c. destruct c; reflexivity. Qed.

Lemma uniform_bounds_single_process_witness :
  t8_cmesh_new_hypercube mpi_single T8_ECLASS_TET sc_MPI_COMM_WORLD 0
  = Ok mesh_tets
  ∧ mpisize mesh_tets = 1
  ∧ ∀ share, t8_cmesh_uniform_bounds share mesh_tets 1 = Ok (0, 0, 5, 8).
Proof.
  split; [vm_compute; reflexivity|]. split; [reflexivity|].
  intros share.
  apply (uniform_bounds_single_process share mesh_tets 1).
  - exact mesh_tets_committed.
  - apply (committed_no_eclass _ _ mesh_tets_committed). reflexivity.
  - lia.
  - vm_compute. discriminate.
  - reflexivity.
Defined.

Lemma exact_share_step (G P k : Z) :
  0 <= G → 0 < P → 0 <= k →
  G / P <= G * (k + 1) / P - G * k / P <= G / P + 1
  ∧ (G mod P = 0 → G * (k + 1) / P - G * k / P = G / P).
Proof.
  intros HG HP Hk.
  pose proof (Z.div_mod G P ltac:(lia)) as Hdm.
  pose proof (Z.mod_pos_bound G P HP) as Hmb.
  set (q := G / P) in *. set (m := G mod P) in *.
  assert (Hk1 : G * (k + 1) / P = q * (k + 1) + m * (k + 1) / P).
  { replace (G * (k + 1)) with (m * (k + 1) + q * (k + 1) * P) by lia.
    rewrite Z.div_add by lia. lia. }
  assert (Hk0 : G * k / P = q * k + m * k / P).
  { replace (G * k) with (m * k + q * k * P) by lia.
    rewrite Z.div_add by lia. lia. }
  rewrite Hk1, Hk0.
  pose proof (Z.div_mod (m * (k + 1)) P ltac:(lia)) as Ha.
  pose proof (Z.mod_pos_bound (m * (k + 1)) P HP) as Hab.
  pose proof (Z.div_mod (m * k) P ltac:(lia)) as Hb.
  pose proof (Z.mod_pos_bound (m * k) P HP) as Hbb.
  set (a := m * (k + 1) / P) in *. set (b := m * k / P) in *.
  split; [nia|].
  intros Hm. clearbody a b m q. subst m.
  assert (a = 0) by nia. assert (b = 0) by nia. lia.
Qed.

(** If the [long double] arithmetic of the platform does not round, the
    children are spread evenly: rank [r] of [P] gets the children
    [G*r/P .. G*(r+1)/P - 1], which are [G/P] or [G/P + 1] many, and exactly
    [G/P] when [P] divides [G]. *)
Theorem uniform_bounds_balanced (share : Z -> Z -> Z -> Z) (cmesh : t8_cmesh)
    (level : Z) :
  cmesh_is_committed cmesh →
  ¬ cmesh_has_eclass cmesh T8_ECLASS_PYRAMID →
  0 <= level →
  num_trees cmesh * 2 ^ (dimension cmesh * level) <= T8_GLOIDX_MAX →
  let C := 2 ^ (dimension cmesh * level) in
  let G := num_trees cmesh * C in
  let P := mpisize cmesh in
  (∀ k, 0 < k < P → share G k P = G * k / P) →
  ∀ r, 0 <= r < P →
    ∃ out first_child last_child,
      t8_cmesh_uniform_bounds share (cmesh_at_rank cmesh r) level = Ok out
      ∧ child_interval C out = (first_child, last_child)
      ∧ first_child = G * r / P
      ∧ last_child = G * (r + 1) / P
      ∧ G / P <= last_child - first_child <= G / P + 1
      ∧ (G mod P = 0 → last_child - first_child = G / P).
Proof.
  intros Hcm Hpyr Hl Hfit C G P Hexact r Hr.
  pose proof (bounds_children cmesh level Hcm Hl) as HCG. cbv zeta in HCG.
  fold C G in HCG. destruct HCG as [HC HG].
  assert (Hs : share_in_range share G P).
  { intros k Hk. rewrite Hexact by done.
    apply (exact_share_in_range G P ltac:(lia) k Hk). }
  assert (Hfirst : (rank_children share cmesh G r).1 = G * r / P).
  { unfold rank_children, first_global_child. simpl.
    destruct (Z.eqb_spec r 0) as [->|Hr0].
    - rewrite Z.mul_0_r. by rewrite Z.div_0_l by lia.
    - apply Hexact. lia. }
  assert (Hlast : (rank_children share cmesh G r).2 = G * (r + 1) / P).
  { unfold rank_children, last_global_child. simpl. fold P.
    destruct (Z.eqb_spec r (P - 1)) as [->|Hrl]; simpl.
    - replace (P - 1 + 1) with P by lia. by rewrite Z.div_mul by lia.
    - apply Hexact. lia. }
  destruct (exact_share_step G P r ltac:(lia) ltac:(lia) ltac:(lia))
    as [Hstep Hdiv].
  destruct (bounds_at_rank share cmesh level Hcm Hpyr Hl Hfit r Hr Hs)
    as (t1 & b & t2 & e & Hcall & _ & _ & Hsum & _ & _ & _ & _ & Hend & _).
  fold C G in Hsum, Hend. rewrite Hfirst in Hsum. rewrite Hlast in Hend.
  exists (t1, b, t2, e), (G * r / P), (G * (r + 1) / P).
  split; [exact Hcall|]. split; [|done].
  unfold child_interval. by f_equal.
Qed.

Lemma uniform_bounds_balanced_witness :
  three_triangles = Ok mesh_triangles
  ∧ ∀ r, 0 <= r < 4 →
      ∃ out,
        t8_cmesh_uniform_bounds exact_share (cmesh_at_rank mesh_triangles r) 2
        = Ok out
        ∧ child_interval 16 out = (12 * r, 12 * (r + 1)).
Proof.
  split; [vm_compute; reflexivity|]. intros r Hr.
  destruct (uniform_bounds_balanced exact_share mesh_triangles 2)
    with (r := r)
    as (out & first_child & last_child & Hret & Hint & Hf & Hl & _).
  - exact mesh_triangles_committed.
  - apply (committed_no_eclass _ _ mesh_triangles_committed). reflexivity.
  - lia.
  - vm_compute. discriminate.
  - intros k Hk. reflexivity.
  - exact Hr.
  - exists out. split; [exact Hret|].
    transitivity (first_child, last_child); [exact Hint|]. rewrite Hf, Hl.
    change (num_trees mesh_triangles
            * 2 ^ (dimension mesh_triangles * 2)) with 48.
    change (mpisize mesh_triangles) with 4.
    f_equal.
    + replace (48 * r) with (12 * r * 4) by lia. apply Z.div_mul. lia.
    + replace (48 * (r + 1)) with (12 * (r + 1) * 4) by lia.
      apply Z.div_mul. lia.
Defined.

(** * Properties of the ghost layer *)

Import Ghost.

Lemma foldM_invariant {S A : Type} (f : S -> A -> res S) (I : S -> Prop)
    (l : list A) :
  (∀ s a, a ∈ l → I s → ∃ s', f s a = Ok s' ∧ I s') →
  ∀ s, I s → ∃ s', foldM f l s = Ok s' ∧ I s'.
Proof.
  induction l as [|a l IH]; intros Hstep s Hs.
  - by exists s.
  - destruct (Hstep s a ltac:(left) Hs) as (s1 & Hf & Hs1).
    destruct (IH (fun s a Ha => Hstep s a ltac:(by right)) s1 Hs1)
      as (s' & Hfold & Hs').
    exists s'. simpl. rewrite Hf. done.
Qed.

Section GhostTrees.

Context {E : Type} {conv : t8_locidx_conversion}.
Variable lctree_id : Z.
Variable forest : t8_forest E.

(** The two assertions of [t8_forest_ghost_add_tree]. *)
Definition add_tree_asserts : Prop :=
  t8_forest_is_committed forest = true
  ∧ 0 <= lctree_id
    < t8_cmesh_get_num_local_trees forest + t8_cmesh_get_num_ghosts forest.

Lemma add_tree_known (ghost : t8_forest_ghost E) (gtreeid : Z) :
  add_tree_asserts →
  is_Some (global_tree_to_ghost_tree ghost !! gtreeid) →
  t8_forest_ghost_add_tree lctree_id forest ghost gtreeid = Ok ghost.
Proof.
  intros [Hc Hl] [i Hi]. unfold t8_forest_ghost_add_tree.
  rewrite Hc, Hi. simpl.
  destruct (Z.leb_spec 0 lctree_id); [|lia].
  destruct (Z.ltb_spec lctree_id
              (t8_cmesh_get_num_local_trees forest
               + t8_cmesh_get_num_ghosts forest)); [|lia].
  reflexivity.
Qed.

Lemma add_tree_returns (ghost : t8_forest_ghost E) (gtreeid : Z) :
  add_tree_asserts →
  ∃ ghost',
    t8_forest_ghost_add_tree lctree_id forest ghost gtreeid = Ok ghost'
    ∧ is_Some (global_tree_to_ghost_tree ghost' !! gtreeid)
    ∧ remote_ghosts ghost' = remote_ghosts ghost
    ∧ remote_processes ghost' = remote_processes ghost
    ∧ (ghost_index_ok ghost → ghost_index_ok ghost').
Proof.
  intros Hpre.
  destruct (global_tree_to_ghost_tree ghost !! gtreeid) as [i|] eqn:Hi.
  - exists ghost. rewrite add_tree_known by (done || by eexists).
    rewrite Hi. split; [done|]. split; [by eexists|]. done.
  - destruct Hpre as [Hc Hl]. unfold t8_forest_ghost_add_tree.
    rewrite Hc, Hi. simpl.
    destruct (Z.leb_spec 0 lctree_id); [|lia].
    destruct (Z.ltb_spec lctree_id
                (t8_cmesh_get_num_local_trees forest
                 + t8_cmesh_get_num_ghosts forest)); [|lia].
    simpl. eexists. split; [reflexivity|]. simpl.
    split; [rewrite lookup_insert_eq; by eexists|].
    split; [done|]. split; [done|].
    intros Hok id j. unfold ghost_index_ok in Hok. simpl.
    destruct (decide (id = gtreeid)) as [->|Hne].
    + rewrite lookup_insert_eq. split.
      * intros [= <-]. rewrite lookup_app_r, Nat.sub_diag by lia. done.
      * intros Hj.
        destruct (decide (j < length (ghost_trees ghost))%nat) as [Hlt|Hge].
        -- rewrite lookup_app_l in Hj by done.
           apply Hok in Hj. congruence.
        -- apply fmap_Some in Hj as (t & Ht & _).
           apply lookup_lt_Some in Ht. rewrite length_app in Ht.
           simpl in Ht. f_equal. lia.
    + rewrite lookup_insert_ne by done. rewrite Hok.
      destruct (decide (j < length (ghost_trees ghost))%nat) as [Hlt|Hge].
      * by rewrite lookup_app_l.
      * rewrite lookup_ge_None_2 by lia.
        destruct (decide (j = length (ghost_trees ghost))) as [->|Hj].
        -- rewrite lookup_app_r, Nat.sub_diag by lia. simpl.
           split; [done|]. intros [= ?]. done.
        -- rewrite lookup_ge_None_2; [done|].
           rewrite length_app. simpl. lia.
Qed.

End GhostTrees.

(** Claim C10: a call of [t8_forest_ghost_add_tree] whose assertions hold,
    for a global tree id that the ghost structure already knows, returns the
    ghost structure as it was: nothing is pushed to [ghost_trees] and the
    table [global_tree_to_ghost_tree] stays the same.  So whatever the
    first call for an id returns, a second call for the same id returns
    again. *)
Theorem ghost_add_tree_idempotent {E : Type}
    {conv : t8_locidx_conversion} (lctree_id : Z)
    (forest : t8_forest E) (ghost : t8_forest_ghost E) (gtreeid : Z) :
  add_tree_asserts lctree_id forest →
  (is_Some (global_tree_to_ghost_tree ghost !! gtreeid) →
   t8_forest_ghost_add_tree lctree_id forest ghost gtreeid = Ok ghost)
  ∧ ∃ ghost1,
      t8_forest_ghost_add_tree lctree_id forest ghost gtreeid = Ok ghost1
      ∧ t8_forest_ghost_add_tree lctree_id forest ghost1 gtreeid = Ok ghost1.
Proof.
  intros Hpre. split; [by apply add_tree_known|].
  destruct (add_tree_returns lctree_id forest ghost gtreeid Hpre)
    as (ghost1 & H1 & Hin & _).
  exists ghost1. split; [done|]. by apply add_tree_known.
Qed.


(** ** The sorted ghost tree array *)

Lemma ghost_tree_compare_le {E : Type} (a b : t8_ghost_tree_t E) :
  compar_le t8_ghost_tree_compare a b ↔ global_id a <= global_id b.
Proof.
  unfold compar_le, t8_ghost_tree_compare.
  destruct (Z.ltb_spec (global_id a) (global_id b)); [lia|].
  case_bool_decide; lia.
Qed.

#[local] Instance ghost_tree_compare_total {E : Type} :
  Total (compar_le (@t8_ghost_tree_compare E)).
Proof. intros a b. rewrite !ghost_tree_compare_le. lia. Qed.

#[local] Instance ghost_tree_compare_trans {E : Type} :
  Transitive (compar_le (@t8_ghost_tree_compare E)).
Proof. intros a b c. rewrite !ghost_tree_compare_le. lia. Qed.

Lemma sorted_ids_ascending (l : list Z) :
  StronglySorted Z.le l → NoDup l → StronglySorted Z.lt l.
Proof.
  induction 1 as [|x l Hs IH Hall]; intros Hnd; [constructor|].
  apply NoDup_cons in Hnd as [Hx Hnd]. constructor; [by apply IH|].
  rewrite Forall_forall in *. intros y Hy.
  assert (x ≠ y) by (intros ->; done). specialize (Hall y Hy). lia.
Qed.

Lemma ascending_ids_sorted (l : list Z) :
  StronglySorted Z.lt l → StronglySorted Z.le l.
Proof.
  induction 1 as [|x l Hs IH Hall]; constructor; [done|].
  eapply Forall_impl; [done|]. intros; simpl in *; lia.
Qed.

Lemma sc_array_sort_ghost_trees {E : Type} (l : list (t8_ghost_tree_t E)) :
  sc_array_sort t8_ghost_tree_compare l ≡ₚ l
  ∧ StronglySorted Z.le (global_id <$> sc_array_sort t8_ghost_tree_compare l).
Proof.
  unfold sc_array_sort. split; [apply merge_sort_Permutation|].
  eapply StronglySorted_fmap with (R1 := compar_le t8_ghost_tree_compare).
  - intros a b. by rewrite ghost_tree_compare_le.
  - apply StronglySorted_merge_sort; apply _.
Qed.

Lemma ghost_index_ok_NoDup {E : Type} (ghost : t8_forest_ghost E) :
  ghost_index_ok ghost → NoDup (global_id <$> ghost_trees ghost).
Proof.
  intros Hok. apply NoDup_alt. intros i j id Hi Hj.
  rewrite list_lookup_fmap in Hi, Hj.
  apply Hok in Hi, Hj. congruence.
Qed.

Lemma reset_gtree_index_loop {E : Type} (l : list (t8_ghost_tree_t E)) :
  ∀ (n : nat) (table : gmap Z nat),
  (∀ t, t ∈ l → is_Some (table !! global_id t)) →
  NoDup (global_id <$> l) →
  ∃ table',
    foldM reset_gtree_index (imap (fun it tree => ((n + it)%nat, tree)) l) table
    = Ok table'
    ∧ (∀ j t, l !! j = Some t → table' !! global_id t = Some (n + j)%nat)
    ∧ (∀ id, id ∉ (global_id <$> l) → table' !! id = table !! id).
Proof.
  induction l as [|t l IH]; intros n table Hdom Hnd.
  - exists table. split; [done|]. split; [|done]. intros j t Hj. done.
  - rewrite fmap_cons in Hnd. apply NoDup_cons in Hnd as [Ht Hnd].
    destruct (Hdom t ltac:(left)) as [i Hi].
    destruct (IH (S n) (<[global_id t := (n + 0)%nat]> table))
      as (table' & Hfold & Hidx & Hother); [|done|].
    { intros t' Ht'.
      destruct (decide (global_id t' = global_id t)) as [->|Hne].
      - rewrite lookup_insert_eq. by eexists.
      - rewrite lookup_insert_ne by done. apply Hdom. by right. }
    exists table'. split; [|split].
    + rewrite imap_cons. cbn [foldM].
      assert (Hstep : reset_gtree_index table ((n + 0)%nat, t)
                      = Ok (<[global_id t := (n + 0)%nat]> table))
        by (unfold reset_gtree_index; simpl; by rewrite Hi).
      rewrite Hstep. cbv beta iota delta [mbind res_bind].
      rewrite <- Hfold. f_equal.
      apply imap_ext. intros j x _. simpl. f_equal. lia.
    + intros [|j] t' Hj; simpl in Hj.
      * injection Hj as <-. rewrite Hother by done.
        by rewrite lookup_insert_eq.
      * rewrite (Hidx j t' Hj). f_equal. lia.
    + intros id Hid. rewrite fmap_cons in Hid.
      apply not_elem_of_cons in Hid as [Hne Hid].
      rewrite Hother by done. by rewrite lookup_insert_ne.
Qed.

Section FillGhostTrees.

Context {E : Type} {conv : t8_locidx_conversion}.
Variable lctree_id : Z.
Variable forest : t8_forest E.
Hypothesis Hpre : add_tree_asserts lctree_id forest.

(** What the tree-adding loops keep: the index is right and the remote
    store is that of [ghost0]. *)
Definition fill_keeps (ghost0 ghost : t8_forest_ghost E) : Prop :=
  ghost_index_ok ghost
  ∧ remote_ghosts ghost = remote_ghosts ghost0
  ∧ remote_processes ghost = remote_processes ghost0.

Lemma add_tree_keeps (ghost0 ghost : t8_forest_ghost E) (gtreeid : Z) :
  fill_keeps ghost0 ghost →
  ∃ ghost', t8_forest_ghost_add_tree lctree_id forest ghost gtreeid = Ok ghost'
            ∧ fill_keeps ghost0 ghost'.
Proof.
  intros (Hok & Hr & Hp).
  destruct (add_tree_returns lctree_id forest ghost gtreeid Hpre)
    as (ghost' & Hadd & _ & Hr' & Hp' & Hok').
  exists ghost'. split; [done|]. split; [by apply Hok'|]. split; congruence.
Qed.

Lemma fill_ghost_tree_array_sorted (ghost0 : t8_forest_ghost E) :
  ghost_index_ok ghost0 →
  ∃ ghost,
    t8_forest_ghost_fill_ghost_tree_array lctree_id forest ghost0 = Ok ghost
    ∧ StronglySorted Z.lt (global_id <$> ghost_trees ghost)
    ∧ ghost_index_ok ghost
    ∧ remote_ghosts ghost = remote_ghosts ghost0
    ∧ remote_processes ghost = remote_processes ghost0.
Proof.
  intros Hok0. unfold t8_forest_ghost_fill_ghost_tree_array.
  rewrite (proj1 Hpre). simpl.
  assert (H0 : fill_keeps ghost0 ghost0) by done.
  assert (H1 : ∃ ghost1,
             (if t8_forest_first_tree_shared forest
              then t8_forest_ghost_add_tree lctree_id forest ghost0
                     (t8_forest_get_first_local_tree_id forest)
              else Ok ghost0) = Ok ghost1 ∧ fill_keeps ghost0 ghost1).
  { destruct (t8_forest_first_tree_shared forest);
      [by apply add_tree_keeps|by exists ghost0]. }
  destruct H1 as (ghost1 & -> & H1). simpl.
  assert (H2 : ∃ ghost2,
             (if t8_forest_last_tree_shared forest
              then t8_forest_ghost_add_tree lctree_id forest ghost1
                     (t8_forest_get_first_local_tree_id forest
                      + t8_forest_get_num_local_trees forest - 1)
              else Ok ghost1) = Ok ghost2 ∧ fill_keeps ghost0 ghost2).
  { destruct (t8_forest_last_tree_shared forest);
      [by apply add_tree_keeps|by exists ghost1]. }
  destruct H2 as (ghost2 & -> & H2). simpl.
  match goal with |- context [foldM ?f (seqZ 0 ?n) ghost2] =>
    destruct (foldM_invariant f (fill_keeps ghost0) (seqZ 0 n))
      with (s := ghost2) as (ghost3 & -> & (Hok3 & Hr3 & Hp3)); [|done|]
  end.
  { intros s itree _ Hs. apply foldM_invariant; [|done].
    intros s' iface _ Hs'.
    destruct (_ =? -1); [by apply add_tree_keeps|by exists s']. }
  simpl.
  destruct (sc_array_sort_ghost_trees (ghost_trees ghost3)) as [Hperm Hsorted].
  pose proof (ghost_index_ok_NoDup ghost3 Hok3) as Hnd.
  assert (Hnd' : NoDup (global_id <$>
                          sc_array_sort t8_ghost_tree_compare (ghost_trees ghost3)))
    by (by rewrite Hperm).
  destruct (reset_gtree_index_loop
              (sc_array_sort t8_ghost_tree_compare (ghost_trees ghost3))
              0 (global_tree_to_ghost_tree ghost3))
    as (table & Hfold & Hidx & Hother); [|done|].
  { intros t Ht. rewrite Hperm in Ht.
    apply list_elem_of_lookup in Ht as [i Hi].
    exists i. apply Hok3. by rewrite Hi. }
  simpl in Hfold. rewrite Hfold. simpl.
  eexists. split; [reflexivity|]. simpl.
  split; [by apply sorted_ids_ascending|]. split; [|done].
  intros id i. simpl. split.
  - intros Hi.
    destruct (decide (id ∈ global_id <$>
                sc_array_sort t8_ghost_tree_compare (ghost_trees ghost3)))
      as [Hin|Hnin].
    + apply list_elem_of_fmap in Hin as (t & -> & Ht).
      apply list_elem_of_lookup in Ht as [j Hj].
      rewrite (Hidx j t Hj) in Hi. injection Hi as <-.
      simpl. by rewrite Hj.
    + exfalso. apply Hnin. rewrite Hother in Hi by done.
      apply Hok3 in Hi. apply fmap_Some in Hi as (t & Ht & ->).
      apply list_elem_of_fmap. exists t. split; [done|].
      rewrite Hperm. by apply list_elem_of_lookup_2 in Ht.
  - intros Hi. apply fmap_Some in Hi as (t & Ht & ->).
    by rewrite (Hidx i t Ht).
Qed.

End FillGhostTrees.

(** Claim C5: when the assertions of [t8_forest_ghost_add_tree] hold,
    [t8_forest_ghost_fill_ghost_tree_array], run on the fresh ghost
    structure as [t8_forest_ghost_create] runs it, returns; the global ids
    of [ghost_trees] are then strictly ascending (sorted, no id twice), and
    the table [global_tree_to_ghost_tree] holds index [i] for the id [g]
    exactly when the tree at index [i] of [ghost_trees] has the id [g]. *)
Theorem fill_ghost_tree_array_sorted_indexed {E : Type}
    {conv : t8_locidx_conversion} (lctree_id : Z)
    (forest : t8_forest E) :
  add_tree_asserts lctree_id forest →
  ∃ ghost,
    t8_forest_ghost_fill_ghost_tree_array lctree_id forest t8_forest_ghost_init
    = Ok ghost
    ∧ StronglySorted Z.le (global_id <$> ghost_trees ghost)
    ∧ NoDup (global_id <$> ghost_trees ghost)
    ∧ StronglySorted Z.lt (global_id <$> ghost_trees ghost)
    ∧ (∀ (g : Z) (i : nat),
         global_tree_to_ghost_tree ghost !! g = Some i
         ↔ ∃ tree, ghost_trees ghost !! i = Some tree ∧ global_id tree = g).
Proof.
  intros Hpre.
  destruct (fill_ghost_tree_array_sorted lctree_id forest Hpre
              t8_forest_ghost_init)
    as (ghost & Hfill & Hlt & Hok & _).
  { intros id i. simpl. rewrite lookup_empty. done. }
  exists ghost. split; [done|]. split; [|split; [|split; [done|]]].
  - by apply ascending_ids_sorted.
  - by apply ghost_index_ok_NoDup.
  - intros g i. rewrite (Hok g i), fmap_Some.
    split; intros (tree & Ht & Hg); by exists tree.
Qed.


(** ** The remote store *)

Section RemoteElements.

Context {E : Type}.
Variable ts : t8_eclass_scheme_c E.

(** The order of the elements in the forest, as a key. *)
Variable key : E -> Z.



(** The elements of one remote tree while the local tree is scanned: in
    the order of the key, without consecutive duplicates, none after the key [K]. *)
Definition stored_upto (K : Z) (l : list E) : Prop :=
  key_order key l
  ∧ no_consecutive_duplicates ts l
  ∧ Forall (fun e => key e <= K) l.

Lemma stored_upto_nil (K : Z) : stored_upto K [].
Proof.
  split; [constructor|]. split; [|constructor]. by intros i a b Ha.
Qed.



End RemoteElements.

Section RemoteBundles.

Context {E : Type} {conv : t8_locidx_conversion}.
Variable forest : t8_forest E.

(** The order of the elements of a tree, as a key that may depend on the
    scheme of the tree. *)
Variable key : t8_eclass_scheme_c E -> E -> Z.













End RemoteBundles.

Lemma foldM_seqZ_invariant {St : Type} (f : St -> Z -> res St)
    (I : Z -> St -> Prop) (len : nat) :
  ∀ (m : Z) (s : St),
  (∀ i s, m <= i < m + Z.of_nat len → I i s → ∃ s', f s i = Ok s' ∧ I (i + 1) s') →
  I m s →
  ∃ s', foldM f (seqZ m (Z.of_nat len)) s = Ok s' ∧ I (m + Z.of_nat len) s'.
Proof.
  induction len as [|len IH]; intros m s Hstep Hs.
  - exists s. rewrite seqZ_nil by lia. split; [done|].
    by replace (m + Z.of_nat 0) with m by lia.
  - rewrite seqZ_cons by lia.
    replace (Z.pred (Z.of_nat (S len))) with (Z.of_nat len) by lia.
    destruct (Hstep m s ltac:(lia) Hs) as (s1 & Hf & Hs1).
    destruct (IH (Z.succ m) s1) as (s' & Hfold & Hs').
    + intros i s2 Hi. apply Hstep. lia.
    + by replace (Z.succ m) with (m + 1) by lia.
    + exists s'. simpl. rewrite Hf. split; [done|].
      by replace (m + Z.of_nat (S len)) with (Z.succ m + Z.of_nat len) by lia.
Qed.

Section RemoteStored.

Context {E : Type} {conv : t8_locidx_conversion}.
Variable forest : t8_forest E.




End RemoteStored.

Section GhostCreate.

Context {E : Type} {conv : t8_locidx_conversion}.
Variable forest : t8_forest E.
Variable key : t8_eclass_scheme_c E -> E -> Z.
Hypothesis Howner :
  ∀ t e c, 0 <= t8_forest_element_find_owner forest t e c < mpisize forest.





End GhostCreate.




(** ** The example forest *)

Lemma forest_two_quads_asserts : add_tree_asserts 0 forest_two_quads.
Proof. split; [reflexivity|]. simpl. lia. Qed.




Lemma ghost_add_tree_idempotent_witness :
  ∃ ghost1,
    t8_forest_ghost_add_tree (conv := locidx_32) 0 forest_two_quads
      t8_forest_ghost_init 7 = Ok ghost1
    ∧ t8_forest_ghost_add_tree (conv := locidx_32) 0 forest_two_quads
        ghost1 7 = Ok ghost1
    ∧ global_id <$> ghost_trees ghost1 = [7]
    ∧ global_tree_to_ghost_tree ghost1 !! 7 = Some 0%nat.
Proof.
  destruct (ghost_add_tree_idempotent (conv := locidx_32) 0 forest_two_quads
              t8_forest_ghost_init 7 forest_two_quads_asserts)
    as [_ (ghost1 & Hadd & Htwice)].
  exists ghost1. split; [exact Hadd|]. split; [exact Htwice|].
  vm_compute in Hadd. injection Hadd as <-. split; reflexivity.
Defined.

Lemma fill_ghost_tree_array_sorted_indexed_witness :
  ∃ ghost,
    t8_forest_ghost_fill_ghost_tree_array (conv := locidx_32) 0
      forest_two_quads t8_forest_ghost_init = Ok ghost
    ∧ global_id <$> ghost_trees ghost = [3; 4]
    ∧ global_tree_to_ghost_tree ghost !! 3 = Some 0%nat
    ∧ global_tree_to_ghost_tree ghost !! 4 = Some 1%nat
    ∧ StronglySorted Z.lt (global_id <$> ghost_trees ghost).
Proof.
  destruct (fill_ghost_tree_array_sorted_indexed (conv := locidx_32) 0
              forest_two_quads forest_two_quads_asserts)
    as (ghost & Hfill & _ & _ & Hlt & _).
  exists ghost. split; [exact Hfill|].
  split; [|split; [|split; [|exact Hlt]]];
    vm_compute in Hfill; injection Hfill as <-; reflexivity.
Defined.


(** ** Further properties *)



(** ** The ghost structure's pointer after [unref] and [destroy] *)

Lemma ghost_with_rc_same {E : Type} (g : t8_forest_ghost E) :
  ghost_with_rc g (rc g) = g.
Proof. by destruct g. Qed.

Lemma ghost_with_rc_twice {E : Type} (g : t8_forest_ghost E)
    (r r' : t8_refcount_t) :
  ghost_with_rc (ghost_with_rc g r) r' = ghost_with_rc g r'.
Proof. reflexivity. Qed.

Lemma ghost_unref_live {E : Type} (g : t8_forest_ghost E) :
  0 < refcount (rc g) →
  t8_forest_ghost_unref (ghost_live g)
  = Ok (if refcount (rc g) =? 1 then ghost_dangling
        else ghost_live (ghost_with_rc g {| refcount := refcount (rc g) - 1 |})).
Proof.
  intros Hc. unfold t8_forest_ghost_unref, t8_refcount_unref.
  rewrite T8_ASSERT_true by (by apply Z.ltb_lt).
  destruct (Z.eqb_spec (refcount (rc g) - 1) 0) as [H0|H0];
    destruct (Z.eqb_spec (refcount (rc g)) 1) as [H1|H1]; try lia.
  - unfold t8_forest_ghost_reset. cbn [ghost_with_rc rc refcount].
    rewrite H0. reflexivity.
  - reflexivity.
Qed.

(** [t8_forest_ghost_unref] never hands back a null pointer: when it gives
    up the last reference the structure is torn down and the caller's
    pointer is left dangling (where [t8_cmesh_unref] leaves a null
    pointer).  A reference taken and given back leaves the structure as it
    was.  [t8_forest_ghost_destroy] therefore never returns: on a live
    structure its closing assertion [*pghost == NULL] fails, whatever
    [t8_refcount_is_last] answers. *)
Theorem ghost_destroy_never_returns {E : Type}
    (is_last : t8_refcount_t -> bool) (pghost : t8_forest_ghost_ptr E) :
  (∀ p, t8_forest_ghost_unref pghost = Ok p → p ≠ ghost_null)
  ∧ (∀ g, pghost = ghost_live g → refcount (rc g) = 1 →
       t8_forest_ghost_unref pghost = Ok ghost_dangling)
  ∧ (∀ g, pghost = ghost_live g → 0 < refcount (rc g) →
       ∃ g1, t8_forest_ghost_ref pghost = Ok g1
             ∧ refcount (rc g1) = refcount (rc g) + 1
             ∧ t8_forest_ghost_unref (ghost_live g1) = Ok (ghost_live g))
  ∧ t8_forest_ghost_destroy is_last pghost
    = Err (match pghost with
           | ghost_dangling => UndefinedBehavior
           | _ => ContractViolation
           end).
Proof.
  split; [|split; [|split]].
  - intros p. destruct pghost as [|g|]; try discriminate.
    unfold t8_forest_ghost_unref, t8_refcount_unref, T8_ASSERT.
    cbv beta iota delta [mbind res_bind].
    destruct (0 <? refcount (rc g)); [|discriminate].
    destruct (refcount (rc g) - 1 =? 0) eqn:Hz.
    + unfold t8_forest_ghost_reset, T8_ASSERT.
      cbv beta iota delta [mbind res_bind].
      destruct (_ =? 0); [|discriminate]. by intros [= <-].
    + by intros [= <-].
  - intros g -> H1. rewrite ghost_unref_live by lia. by rewrite H1.
  - intros g -> Hc. unfold t8_forest_ghost_ref, t8_refcount_ref.
    rewrite T8_ASSERT_true by (by apply Z.ltb_lt).
    eexists. split; [reflexivity|]. split; [reflexivity|].
    rewrite ghost_unref_live by (simpl; lia). simpl.
    destruct (Z.eqb_spec (refcount (rc g) + 1) 1); [lia|].
    rewrite ghost_with_rc_twice.
    replace (refcount (rc g) + 1 - 1) with (refcount (rc g)) by lia.
    do 2 f_equal. destruct g as [[r] ? ? ? ? ? ?]. reflexivity.
  - destruct pghost as [|g|]; [reflexivity| |reflexivity].
    unfold t8_forest_ghost_destroy.
    destruct (is_last (rc g)); [|reflexivity].
    rewrite T8_ASSERT_true by done.
    destruct (t8_forest_ghost_unref (ghost_live g)) as [p|e] eqn:Hu.
    + cbv beta iota delta [mbind res_bind].
      assert (Hp : p ≠ ghost_null).
      { intros ->. revert Hu.
        unfold t8_forest_ghost_unref, t8_refcount_unref, T8_ASSERT.
        cbv beta iota delta [mbind res_bind].
        destruct (0 <? refcount (rc g)); [|discriminate].
        destruct (refcount (rc g) - 1 =? 0).
        - unfold t8_forest_ghost_reset, T8_ASSERT.
          cbv beta iota delta [mbind res_bind].
          destruct (_ =? 0); discriminate.
        - discriminate. }
      destruct p; [done|reflexivity|reflexivity].
    + cbv beta iota delta [mbind res_bind]. revert Hu.
      unfold t8_forest_ghost_unref, t8_refcount_unref, T8_ASSERT.
      cbv beta iota delta [mbind res_bind].
      destruct (0 <? refcount (rc g)); [|by intros [= <-]].
      destruct (refcount (rc g) - 1 =? 0) eqn:Hz; [|discriminate].
      unfold t8_forest_ghost_reset, T8_ASSERT.
      cbv beta iota delta [mbind res_bind]. cbn [ghost_with_rc rc refcount].
      rewrite Hz. discriminate.
Qed.

(** ** The comparison, hash and equality functions of the ghost layer *)

(** [t8_ghost_tree_compare] is a three-way comparison of the global ids: it
    returns -1, 0 or 1 as the id of the first tree is smaller than, equal
    to or greater than that of the second, and swapping the arguments
    negates the result.  The elements and the class of the trees play no
    part. *)
Theorem ghost_tree_compare_three_way {E : Type} (a b : t8_ghost_tree_t E) :
  t8_ghost_tree_compare a b = Z.sgn (global_id a - global_id b)
  ∧ t8_ghost_tree_compare b a = - t8_ghost_tree_compare a b
  ∧ (t8_ghost_tree_compare a b = 0 ↔ global_id a = global_id b)
  ∧ ∀ c : t8_ghost_tree_t E,
      t8_ghost_tree_compare a b <= 0 → t8_ghost_tree_compare b c <= 0 →
      t8_ghost_tree_compare a c <= 0.
Proof.
  assert (Hsgn : ∀ x y : t8_ghost_tree_t E,
             t8_ghost_tree_compare x y = Z.sgn (global_id x - global_id y)).
  { intros x y. unfold t8_ghost_tree_compare.
    destruct (Z.ltb_spec (global_id x) (global_id y)); [lia|].
    case_bool_decide; lia. }
  split; [apply Hsgn|]. split; [rewrite !Hsgn; lia|].
  split; [rewrite Hsgn; lia|].
  intros c. rewrite !Hsgn. lia.
Qed.

(** Each of the three hash tables tells its entries apart by the key alone
    (the global tree id, the rank): the equality function answers non-zero
    exactly for equal keys, whatever the other fields hold, and entries it
    takes for equal have the same hash value, which is a value of
    [unsigned].  Keys that differ by a multiple of [2 ^ bits] share their
    hash value.  The equality function of the process table in addition
    fails its assertion exactly when two entries of one rank differ in
    [first_element] or [tree_index]. *)
Theorem ghost_hash_functions_by_key {E : Type} (bits : Z)
    (ga gb : t8_ghost_gtree_hash_t) (pa pb : t8_ghost_process_hash_t)
    (ra rb : t8_ghost_remote_t E) :
  (t8_ghost_gtree_equal_function ga gb ≠ 0
   ↔ gtree_global_id ga = gtree_global_id gb)
  ∧ (t8_ghost_gtree_equal_function ga gb ≠ 0 →
     t8_ghost_gtree_hash_function bits ga = t8_ghost_gtree_hash_function bits gb)
  ∧ (t8_ghost_remote_equal_function ra rb ≠ 0 ↔ remote_rank ra = remote_rank rb)
  ∧ (t8_ghost_remote_equal_function ra rb ≠ 0 →
     t8_ghost_remote_hash_function bits ra = t8_ghost_remote_hash_function bits rb)
  ∧ (t8_ghost_process_equal_function pa pb
     = if bool_decide (process_mpirank pa = process_mpirank pb)
       then if bool_decide (process_first_element pa = process_first_element pb
                            ∧ process_tree_index pa = process_tree_index pb)
            then Ok 1 else Err ContractViolation
       else Ok 0)
  ∧ (process_mpirank pa = process_mpirank pb →
     t8_ghost_process_hash_function bits pa
     = t8_ghost_process_hash_function bits pb)
  ∧ (0 <= bits →
     0 <= t8_ghost_gtree_hash_function bits ga < 2 ^ bits
     ∧ ∀ k, gtree_global_id gb = gtree_global_id ga + k * 2 ^ bits →
            t8_ghost_gtree_hash_function bits gb
            = t8_ghost_gtree_hash_function bits ga).
Proof.
  unfold t8_ghost_gtree_equal_function, t8_ghost_remote_equal_function,
    t8_ghost_gtree_hash_function, t8_ghost_remote_hash_function,
    t8_ghost_process_hash_function, t8_ghost_process_equal_function,
    to_unsigned.
  split; [case_bool_decide; split; (done || lia)|].
  split; [case_bool_decide; [congruence|done]|].
  split; [case_bool_decide; split; (done || lia)|].
  split; [case_bool_decide; [congruence|done]|].
  split.
  { repeat case_bool_decide; simpl; try reflexivity; exfalso; tauto. }
  split; [by intros ->|].
  intros Hb. split; [apply Z.mod_pos_bound; lia|].
  intros k ->. apply Z_mod_plus_full.
Qed.

(** ** What ghost construction stores *)

Section RemoteContent.

Context {E : Type} {conv : t8_locidx_conversion}.
Variable forest : t8_forest E.













End RemoteContent.


Section CreateContent.

Context {E : Type} {conv : t8_locidx_conversion}.
Variable forest : t8_forest E.
Variable ghost0 : t8_forest_ghost E.
Hypothesis Howner :
  ∀ t e c, 0 <= t8_forest_element_find_owner forest t e c < mpisize forest.






End CreateContent.

Lemma foldM_seqZ_upto {St : Type} (f : St -> Z -> res St)
    (I : Z -> St -> Prop) (n : Z) (s : St) :
  (∀ i s, 0 <= i < n → I i s → ∃ s', f s i = Ok s' ∧ I (i + 1) s') →
  I 0 s →
  ∃ s', foldM f (seqZ 0 n) s = Ok s' ∧ I (Z.max 0 n) s'.
Proof.
  intros Hstep Hs. destruct (Z.le_gt_cases n 0) as [Hn|Hn].
  - rewrite seqZ_nil by done. exists s. split; [done|].
    by replace (Z.max 0 n) with 0 by lia.
  - destruct (foldM_seqZ_invariant f I (Z.to_nat n) 0 s)
      as (s' & Hfold & Hs'); [|done|].
    + intros i s1 Hi. apply Hstep. lia.
    + rewrite Z2Nat.id in Hfold, Hs' by lia. exists s'. split; [done|].
      by replace (Z.max 0 n) with (0 + n) by lia.
Qed.

(** ** The ghost trees *)

Section FillContent.

Context {E : Type} {conv : t8_locidx_conversion}.
Variable lctree_id : Z.
Variable forest : t8_forest E.
Hypothesis Hpre : add_tree_asserts lctree_id forest.

(** The class [t8_forest_ghost_add_tree] gives to a new ghost tree. *)
Definition added_tree_class (gtreeid : Z) : t8_eclass_t :=
  let lctreeid := t8_locidx_of (gtreeid - t8_cmesh_get_first_treeid forest) in
  if lctree_id <? t8_cmesh_get_num_local_trees forest
  then t8_cmesh_get_tree_class forest lctreeid
  else t8_cmesh_get_ghost_class forest
         (lctreeid - t8_cmesh_get_num_local_trees forest).

(** What one call of [t8_forest_ghost_add_tree] does to a structure whose
    index is right. *)
Lemma add_tree_effect (ghost : t8_forest_ghost E) (gtreeid : Z) :
  ghost_index_ok ghost →
  ∃ ghost',
    t8_forest_ghost_add_tree lctree_id forest ghost gtreeid = Ok ghost'
    ∧ ghost_index_ok ghost'
    ∧ rc ghost' = rc ghost
    ∧ process_offsets ghost' = process_offsets ghost
    ∧ processes ghost' = processes ghost
    ∧ remote_ghosts ghost' = remote_ghosts ghost
    ∧ remote_processes ghost' = remote_processes ghost
    ∧ ((gtreeid ∈ global_id <$> ghost_trees ghost ∧ ghost' = ghost)
       ∨ ((gtreeid ∉ global_id <$> ghost_trees ghost)
          ∧ ghost_trees ghost'
            = ghost_trees ghost
              ++ [ {| global_id := gtreeid;
                      ghost_eclass := added_tree_class gtreeid;
                      elements := [] |} ]
          ∧ global_tree_to_ghost_tree ghost'
            = <[gtreeid := length (ghost_trees ghost)]>
                (global_tree_to_ghost_tree ghost))).
Proof.
  intros Hok.
  destruct (add_tree_returns lctree_id forest ghost gtreeid Hpre)
    as (ghost' & Hadd & _ & Hr & Hp & Hok').
  exists ghost'. split; [done|]. split; [by apply Hok'|].
  destruct (global_tree_to_ghost_tree ghost !! gtreeid) as [i|] eqn:Hi.
  - rewrite add_tree_known in Hadd by (done || by eexists).
    injection Hadd as <-. repeat (split; [done|]). left. split; [|done].
    apply Hok in Hi. apply fmap_Some in Hi as (t & Ht & ->).
    apply list_elem_of_fmap. exists t. split; [done|].
    by apply list_elem_of_lookup_2 in Ht.
  - revert Hadd. destruct Hpre as [Hc Hl]. unfold t8_forest_ghost_add_tree.
    rewrite Hc, Hi. simpl.
    destruct (Z.leb_spec 0 lctree_id); [|lia].
    destruct (Z.ltb_spec lctree_id
                (t8_cmesh_get_num_local_trees forest
                 + t8_cmesh_get_num_ghosts forest)); [|lia].
    simpl. intros [= <-]. simpl. repeat (split; [done|]). right.
    split; [|done]. intros Hin.
    apply list_elem_of_fmap in Hin as (t & -> & Ht).
    apply list_elem_of_lookup in Ht as [j Hj].
    assert (global_tree_to_ghost_tree ghost !! global_id t = Some j)
      by (apply Hok; by rewrite Hj).
    congruence.
Qed.

(** The ghost trees while the loops of
    [t8_forest_ghost_fill_ghost_tree_array] run: beside the trees of
    [ghost0], those of the ids [W]. *)
Definition fill_holds (ghost0 : t8_forest_ghost E) (W : Z -> Prop)
    (ghost : t8_forest_ghost E) : Prop :=
  ghost_index_ok ghost
  ∧ rc ghost = rc ghost0
  ∧ process_offsets ghost = process_offsets ghost0
  ∧ processes ghost = processes ghost0
  ∧ remote_ghosts ghost = remote_ghosts ghost0
  ∧ remote_processes ghost = remote_processes ghost0
  ∧ (∀ g, g ∈ global_id <$> ghost_trees ghost
          ↔ g ∈ global_id <$> ghost_trees ghost0 ∨ W g)
  ∧ (∀ t, t ∈ ghost_trees ghost →
          t ∈ ghost_trees ghost0
          ∨ (elements t = []
             ∧ ghost_eclass t = added_tree_class (global_id t))).

Lemma fill_holds_ext (ghost0 ghost : t8_forest_ghost E) (W W' : Z -> Prop) :
  (∀ g, W g ↔ W' g) → fill_holds ghost0 W ghost → fill_holds ghost0 W' ghost.
Proof.
  intros HW (Hok & Hrc & Hpo & Hp & Hr & Hrp & Hids & Hel).
  repeat (split; [done|]). split; [|done].
  intros g. rewrite Hids. by rewrite HW.
Qed.

Lemma add_tree_holds (ghost0 ghost : t8_forest_ghost E) (W : Z -> Prop)
    (gtreeid : Z) :
  fill_holds ghost0 W ghost →
  ∃ ghost', t8_forest_ghost_add_tree lctree_id forest ghost gtreeid = Ok ghost'
            ∧ fill_holds ghost0 (fun g => W g ∨ g = gtreeid) ghost'.
Proof.
  intros (Hok & Hrc & Hpo & Hp & Hr & Hrp & Hids & Hel).
  destruct (add_tree_effect ghost gtreeid Hok)
    as (ghost' & Hadd & Hok' & Hrc' & Hpo' & Hp' & Hr' & Hrp' & Hcase).
  exists ghost'. split; [done|]. split; [done|].
  split; [congruence|]. split; [congruence|]. split; [congruence|].
  split; [congruence|]. split; [congruence|].
  destruct Hcase as [[Hin ->]|(Hnin & Htrees & _)].
  - split; [|done]. intros g. rewrite Hids. split; [tauto|].
    intros [?|[?| ->]]; [tauto|tauto|]. by apply Hids.
  - rewrite Htrees. split.
    + intros g. rewrite fmap_app, elem_of_app, Hids. simpl.
      rewrite list_elem_of_singleton. tauto.
    + intros t [Ht|Ht%list_elem_of_singleton]%elem_of_app; [by apply Hel|].
      right. by subst t.
Qed.

(** The ids that [t8_forest_ghost_fill_ghost_tree_array] adds for the
    shared first and last local tree. *)
Definition shared_tree_id (g : Z) : Prop :=
  (t8_forest_first_tree_shared forest = true
   ∧ g = t8_forest_get_first_local_tree_id forest)
  ∨ (t8_forest_last_tree_shared forest = true
     ∧ g = t8_forest_get_first_local_tree_id forest
           + t8_forest_get_num_local_trees forest - 1).

(** Face [iface] of the coarse tree of the local tree [itree] leads to a
    tree that is not local to the forest. *)
Definition face_leaves_forest (itree iface : Z) : Prop :=
  let ctree := t8_forest_get_coarse_tree_ext forest itree in
  0 <= iface < t8_eclass_num_faces (eclass ctree)
  ∧ t8_forest_cmesh_ltreeid_to_ltreeid forest (face_neighbors ctree iface) = -1.

(** The id that the face loop passes to [t8_forest_ghost_add_tree] for the
    local tree [itree]. *)
Definition boundary_tree_id (itree : Z) : Z :=
  treeid (t8_forest_get_coarse_tree_ext forest itree)
  + t8_locidx_of (t8_cmesh_get_first_treeid forest).

Definition boundary_tree_ids (upto : Z) (g : Z) : Prop :=
  ∃ itree iface,
    0 <= itree < upto ∧ face_leaves_forest itree iface
    ∧ g = boundary_tree_id itree.

Lemma fill_ghost_tree_array_content (ghost0 : t8_forest_ghost E) :
  ghost_index_ok ghost0 →
  ∃ ghost,
    t8_forest_ghost_fill_ghost_tree_array lctree_id forest ghost0 = Ok ghost
    ∧ rc ghost = rc ghost0
    ∧ process_offsets ghost = process_offsets ghost0
    ∧ processes ghost = processes ghost0
    ∧ remote_ghosts ghost = remote_ghosts ghost0
    ∧ remote_processes ghost = remote_processes ghost0
    ∧ (∀ g, g ∈ global_id <$> ghost_trees ghost
            ↔ g ∈ global_id <$> ghost_trees ghost0
              ∨ shared_tree_id g
              ∨ boundary_tree_ids (t8_forest_get_num_local_trees forest) g)
    ∧ (∀ t, t ∈ ghost_trees ghost →
            t ∈ ghost_trees ghost0
            ∨ (elements t = []
               ∧ ghost_eclass t = added_tree_class (global_id t))).
Proof.
  intros Hok0. unfold t8_forest_ghost_fill_ghost_tree_array.
  rewrite (proj1 Hpre). simpl.
  set (first := t8_forest_get_first_local_tree_id forest).
  set (n := t8_forest_get_num_local_trees forest).
  set (W1 := fun g => t8_forest_first_tree_shared forest = true ∧ g = first).
  set (W2 := fun g => W1 g
               ∨ (t8_forest_last_tree_shared forest = true ∧ g = first + n - 1)).
  assert (H0 : fill_holds ghost0 (fun _ => False) ghost0).
  { repeat (split; [done|]). split; [intros g; tauto|]. intros t Ht. by left. }
  assert (H1 : ∃ ghost1,
             (if t8_forest_first_tree_shared forest
              then t8_forest_ghost_add_tree lctree_id forest ghost0 first
              else Ok ghost0) = Ok ghost1 ∧ fill_holds ghost0 W1 ghost1).
  { unfold W1. destruct (t8_forest_first_tree_shared forest).
    - destruct (add_tree_holds ghost0 ghost0 _ first H0) as (g1 & Ha & Hh).
      exists g1. split; [done|]. eapply fill_holds_ext; [|exact Hh].
      intros g. simpl. tauto.
    - exists ghost0. split; [done|]. eapply fill_holds_ext; [|exact H0].
      intros g. simpl. split; [done|]. by intros [? _]. }
  destruct H1 as (ghost1 & -> & H1). simpl.
  assert (H2 : ∃ ghost2,
             (if t8_forest_last_tree_shared forest
              then t8_forest_ghost_add_tree lctree_id forest ghost1
                     (first + n - 1)
              else Ok ghost1) = Ok ghost2 ∧ fill_holds ghost0 W2 ghost2).
  { unfold W2. destruct (t8_forest_last_tree_shared forest).
    - destruct (add_tree_holds ghost0 ghost1 _ (first + n - 1) H1)
        as (g2 & Ha & Hh).
      exists g2. split; [done|]. eapply fill_holds_ext; [|exact Hh].
      intros g. simpl. tauto.
    - exists ghost1. split; [done|]. eapply fill_holds_ext; [|exact H1].
      intros g. simpl. split; [tauto|]. intros [?|[? _]]; done. }
  destruct H2 as (ghost2 & -> & H2). simpl.
  destruct (foldM_seqZ_upto
              (fun ghost itree =>
                 foldM (fun ghost iface =>
                          if t8_forest_cmesh_ltreeid_to_ltreeid forest
                               (face_neighbors
                                  (t8_forest_get_coarse_tree_ext forest itree)
                                  iface) =? -1
                          then t8_forest_ghost_add_tree lctree_id forest ghost
                                 (treeid (t8_forest_get_coarse_tree_ext forest
                                            itree)
                                  + t8_locidx_of
                                      (t8_cmesh_get_first_treeid forest))
                          else Ok ghost)
                       (seqZ 0 (t8_eclass_num_faces
                                  (eclass (t8_forest_get_coarse_tree_ext
                                             forest itree))))
                       ghost)
              (fun i ghost =>
                 fill_holds ghost0 (fun g => W2 g ∨ boundary_tree_ids i g) ghost)
              n ghost2)
    as (ghost3 & Hfold & H3).
  - intros itree s Hitree Hs.
    set (ctree := t8_forest_get_coarse_tree_ext forest itree).
    set (nf := t8_eclass_num_faces (eclass ctree)).
    destruct (foldM_seqZ_upto
                (fun ghost iface =>
                   if t8_forest_cmesh_ltreeid_to_ltreeid forest
                        (face_neighbors ctree iface) =? -1
                   then t8_forest_ghost_add_tree lctree_id forest ghost
                          (treeid ctree
                           + t8_locidx_of (t8_cmesh_get_first_treeid forest))
                   else Ok ghost)
                (fun j ghost =>
                   fill_holds ghost0
                     (fun g => W2 g ∨ boundary_tree_ids itree g
                               ∨ ∃ iface, 0 <= iface < j
                                          ∧ face_leaves_forest itree iface
                                          ∧ g = boundary_tree_id itree)
                     ghost)
                nf s)
      as (s' & Hf & Hs').
    + intros iface s1 Hiface Hs1.
      destruct (Z.eqb_spec (t8_forest_cmesh_ltreeid_to_ltreeid forest
                              (face_neighbors ctree iface)) (-1)) as [Hout|Hin].
      * destruct (add_tree_holds ghost0 s1 _
                    (treeid ctree
                     + t8_locidx_of (t8_cmesh_get_first_treeid forest)) Hs1)
          as (s2 & Ha & Hh).
        exists s2. split; [done|]. eapply fill_holds_ext; [|exact Hh].
        intros g. simpl. split.
        -- intros [[?|[?|(f & Hf & Hl & Hg)]]| ->]; [tauto|tauto| |].
           ++ right. right. exists f. split; [lia|done].
           ++ right. right. exists iface. split; [lia|].
              split; [|done]. split; [fold ctree nf; lia|done].
        -- intros [?|[?|(f & Hf & Hl & Hg)]]; [tauto|tauto|].
           destruct (decide (f = iface)) as [->|Hne]; [by right|].
           left. right. right. exists f. split; [lia|done].
      * exists s1. split; [done|]. eapply fill_holds_ext; [|exact Hs1].
        intros g. split.
        -- intros [?|[?|(f & Hf & Hl & Hg)]]; [tauto|tauto|].
           right. right. exists f. split; [lia|done].
        -- intros [?|[?|(f & Hf & Hl & Hg)]]; [tauto|tauto|].
           destruct (decide (f = iface)) as [->|Hne].
           ++ destruct Hl as [_ Hl]. by fold ctree in Hl.
           ++ right. right. exists f. split; [lia|done].
    + eapply fill_holds_ext; [|exact Hs]. intros g. split; [tauto|].
      intros [?|[?|(f & Hf & _)]]; [tauto|tauto|lia].
    + exists s'. split; [exact Hf|]. eapply fill_holds_ext; [|exact Hs'].
      intros g. split.
      * intros [?|[(i & f & Hi & Hl & Hg)|(f & Hf' & Hl & Hg)]]; [tauto| |].
        -- right. exists i, f. split; [lia|done].
        -- right. exists itree, f. split; [lia|done].
      * intros [?|(i & f & Hi & Hl & Hg)]; [tauto|].
        destruct (decide (i = itree)) as [->|Hne].
        -- right. right. exists f. split; [|done].
           destruct Hl as [Hl _]. fold ctree nf in Hl. lia.
        -- right. left. exists i, f. split; [lia|done].
  - eapply fill_holds_ext; [|exact H2]. intros g. split; [tauto|].
    intros [?|(i & f & Hi & _)]; [tauto|lia].
  - simpl in Hfold. rewrite Hfold. simpl.
    destruct H3 as (Hok3 & Hrc3 & Hpo3 & Hp3 & Hr3 & Hrp3 & Hids3 & Hel3).
    destruct (sc_array_sort_ghost_trees (ghost_trees ghost3)) as [Hperm Hsorted].
    pose proof (ghost_index_ok_NoDup ghost3 Hok3) as Hnd.
    assert (Hnd' : NoDup (global_id <$>
                            sc_array_sort t8_ghost_tree_compare (ghost_trees ghost3)))
      by (by rewrite Hperm).
    destruct (reset_gtree_index_loop
                (sc_array_sort t8_ghost_tree_compare (ghost_trees ghost3))
                0 (global_tree_to_ghost_tree ghost3))
      as (table & Hreset & _); [|done|].
    { intros t Ht. rewrite Hperm in Ht.
      apply list_elem_of_lookup in Ht as [i Hi].
      exists i. apply Hok3. by rewrite Hi. }
    simpl in Hreset. rewrite Hreset. simpl.
    eexists. split; [reflexivity|]. simpl. repeat (split; [done|]). split.
    + intros g. rewrite Hperm, Hids3. unfold W2, W1, shared_tree_id.
      fold first n. split.
      * intros [?|[[?|?]|(i & f & Hi & Hl)]]; [tauto|tauto|tauto|].
        right. right. exists i, f. split; [lia|done].
      * intros [?|[[?|?]|(i & f & Hi & Hl)]]; [tauto|tauto|tauto|].
        right. right. exists i, f. split; [lia|done].
    + intros t Ht. rewrite Hperm in Ht. by apply Hel3.
Qed.

End FillContent.


(** [t8_forest_ghost_add_tree] keeps the array and the table in step: after
    the call the table finds the id at an index of [ghost_trees] that holds
    a tree of that id; the entries the table had still lead to the same
    trees; and the array has grown by one tree (with no elements) exactly
    when the id was not yet known. *)
Theorem ghost_add_tree_insert_lookup {E : Type} {conv : t8_locidx_conversion}
    (lctree_id : Z) (forest : t8_forest E) (ghost : t8_forest_ghost E)
    (gtreeid : Z) :
  add_tree_asserts lctree_id forest →
  ghost_index_ok ghost →
  ∃ ghost' i tree,
    t8_forest_ghost_add_tree lctree_id forest ghost gtreeid = Ok ghost'
    ∧ ghost_index_ok ghost'
    ∧ global_tree_to_ghost_tree ghost' !! gtreeid = Some i
    ∧ ghost_trees ghost' !! i = Some tree ∧ global_id tree = gtreeid
    ∧ (∀ id j, global_tree_to_ghost_tree ghost !! id = Some j →
         global_tree_to_ghost_tree ghost' !! id = Some j
         ∧ ghost_trees ghost' !! j = ghost_trees ghost !! j)
    ∧ (if decide (gtreeid ∈ global_id <$> ghost_trees ghost)
       then ghost' = ghost
       else ghost_trees ghost' = ghost_trees ghost ++ [tree]
            ∧ elements tree = [] ∧ i = length (ghost_trees ghost)).
Proof.
  intros Hpre Hok.
  destruct (add_tree_effect lctree_id forest Hpre ghost gtreeid Hok)
    as (ghost' & Hadd & Hok' & _ & _ & _ & _ & _ & Hcase).
  destruct Hcase as [[Hin ->]|(Hnin & Htrees & Htable)].
  - pose proof Hin as Hin'.
    apply list_elem_of_fmap in Hin' as (t & Hg & Ht).
    apply list_elem_of_lookup in Ht as [i Hi].
    exists ghost, i, t. split; [done|]. split; [done|].
    split; [apply Hok; by rewrite Hi, Hg|]. split; [done|]. split; [done|].
    split; [done|]. by rewrite decide_True.
  - eexists ghost', (length (ghost_trees ghost)), _.
    split; [done|]. split; [done|].
    split; [rewrite Htable; apply lookup_insert_eq|].
    split; [rewrite Htrees, lookup_app_r, Nat.sub_diag by lia; reflexivity|].
    split; [reflexivity|]. split.
    + intros id j Hj. assert (id ≠ gtreeid).
      { intros ->. apply Hnin. apply Hok in Hj.
        apply fmap_Some in Hj as (t & Ht & ->).
        apply list_elem_of_fmap. exists t. split; [done|].
        by apply list_elem_of_lookup_2 in Ht. }
      rewrite Htable, lookup_insert_ne by done. split; [done|].
      rewrite Htrees. apply lookup_app_l.
      apply Hok in Hj. apply fmap_Some in Hj as (t & Ht & _).
      by apply lookup_lt_Some in Ht.
    + rewrite decide_False by done. done.
Qed.

Lemma ghost_add_tree_insert_lookup_witness :
  ∃ ghost' tree,
    t8_forest_ghost_add_tree (conv := locidx_32) 0 forest_two_quads
      t8_forest_ghost_init 7 = Ok ghost'
    ∧ global_tree_to_ghost_tree ghost' !! 7 = Some 0%nat
    ∧ ghost_trees ghost' = [tree]
    ∧ global_id tree = 7 ∧ elements tree = [].
Proof.
  destruct (ghost_add_tree_insert_lookup (conv := locidx_32) 0
              forest_two_quads t8_forest_ghost_init 7
              forest_two_quads_asserts)
    as (ghost' & i & tree & Hadd & _ & Hlook & _ & Hid & _ & Hnew).
  - intros id i. simpl. rewrite lookup_empty. done.
  - case_decide as Hin; [by apply elem_of_nil in Hin|].
    destruct Hnew as (Htrees & Hel & Hi).
    exists ghost', tree. split; [exact Hadd|].
    split; [rewrite Hlook, Hi; reflexivity|].
    split; [exact Htrees|]. split; [exact Hid|exact Hel].
Defined.

(** The ghost trees that [t8_forest_ghost_fill_ghost_tree_array] builds on
    the fresh structure: a tree of the id [g] is there exactly when [g] is
    the id of the shared first or last local tree, or the id that the face
    loop forms for a local tree one of whose faces leads out of the forest
    (the id of that tree's own coarse tree plus the first tree id of the
    cmesh, not the id of the neighbour).  Every ghost tree has the class
    [t8_forest_ghost_add_tree] computes and no elements; the remote store,
    the process tables and the reference count are as
    [t8_forest_ghost_init] left them. *)
Theorem fill_ghost_tree_array_trees {E : Type} {conv : t8_locidx_conversion}
    (lctree_id : Z) (forest : t8_forest E) :
  add_tree_asserts lctree_id forest →
  ∃ ghost,
    t8_forest_ghost_fill_ghost_tree_array lctree_id forest t8_forest_ghost_init
    = Ok ghost
    ∧ (∀ g, g ∈ global_id <$> ghost_trees ghost
            ↔ shared_tree_id forest g
              ∨ boundary_tree_ids forest
                  (t8_forest_get_num_local_trees forest) g)
    ∧ (∀ t, t ∈ ghost_trees ghost →
            elements t = []
            ∧ ghost_eclass t = added_tree_class lctree_id forest (global_id t))
    ∧ remote_ghosts ghost = [] ∧ remote_processes ghost = []
    ∧ process_offsets ghost = ∅ ∧ processes ghost = []
    ∧ rc ghost = t8_refcount_init.
Proof.
  intros Hpre.
  destruct (fill_ghost_tree_array_content lctree_id forest Hpre
              t8_forest_ghost_init)
    as (ghost & Hfill & Hrc & Hpo & Hp & Hr & Hrp & Hids & Hel).
  { intros id i. simpl. rewrite lookup_empty. done. }
  exists ghost. split; [done|]. split; [|split].
  - intros g. rewrite Hids. simpl. split; [|tauto].
    intros [Hnil|?]; [by apply elem_of_nil in Hnil|done].
  - intros t Ht. destruct (Hel t Ht) as [Hnil|?]; [|done].
    by apply elem_of_nil in Hnil.
  - done.
Qed.

Lemma fill_ghost_tree_array_trees_witness :
  ∃ ghost,
    t8_forest_ghost_fill_ghost_tree_array (conv := locidx_32) 0
      forest_two_quads t8_forest_ghost_init = Ok ghost
    ∧ 3 ∈ global_id <$> ghost_trees ghost
    ∧ 4 ∈ global_id <$> ghost_trees ghost
    ∧ (5 ∉ global_id <$> ghost_trees ghost)
    ∧ (∀ t, t ∈ ghost_trees ghost → elements t = [])
    ∧ remote_ghosts ghost = [].
Proof.
  destruct (fill_ghost_tree_array_trees (conv := locidx_32) 0
              forest_two_quads forest_two_quads_asserts)
    as (ghost & Hfill & Hids & Hel & Hr & _).
  exists ghost. split; [exact Hfill|].
  split; [|split; [|split; [|split; [|exact Hr]]]].
  - apply Hids. right. exists 0, 2.
    split; [simpl; lia|]. split; [|reflexivity].
    split; [simpl; lia|reflexivity].
  - apply Hids. left. right. split; reflexivity.
  - intros Hin. apply Hids in Hin as [[[_ H5]|[_ H5]]|(itree & iface & Hi & _ & H5)].
    + discriminate H5.
    + discriminate H5.
    + unfold boundary_tree_id in H5. simpl in Hi, H5.
      change (t8_locidx_of 3) with 3 in H5. lia.
  - intros t Ht. exact (proj1 (Hel t Ht)).
Defined.






